(** * BlueSTSDK_Python: the discovery manager (blue_st_sdk/manager.py)

    A shallow embedding of the [Manager] class and of the scanner delegate,
    and the properties of the node list, the listener list, the singleton
    and the features decoder dictionary.

    Python objects that are shared and mutated (the manager objects, the
    list of discovered nodes, the dictionaries of the features decoder) live
    in a store and are named by references; methods are functions from the
    store to a result, which is a returned value or a raised exception,
    either one with the store at that point.

    The calls are taken one at a time: a [with lock(...)] block is its body,
    and what the scanner thread does is a call of its own between the calls
    of the application. What the Bluetooth driver does is an argument of the
    methods that use it. *)

From Stdlib Require Import ZArith.
From stdpp Require Import gmap strings list fin_maps.

Open Scope Z_scope.
Open Scope string_scope.
Open Scope list_scope.
Open Scope nat_scope.

(** ** Python values of the model *)

(** References into the store (the identity of an object). *)
Abbreviation ref := nat.

(** The exceptions the module raises or lets through. *)
Inductive exn : Type :=
  | PyException (msg : string)
  | NameError (name : string)
  | AttributeError (msg : string)
  | ValueError (msg : string)
  | BTLEException (code : Z) (msg : string)
  | InvalidBLEAdvertisingDataException
  | InvalidFeatureBitMaskException (msg : string).

Global Instance exn_eq_dec : EqDecision exn.
Proof. solve_decision. Defined.

(** Modelled from the spec: blue_st_sdk/node.py is missing; the connection
    status of a node is the enumeration of the data model. *)
Inductive NodeStatus : Type := Idle | Connecting | Connected | Disconnected.

Global Instance NodeStatus_eq_dec : EqDecision NodeStatus.
Proof. solve_decision. Defined.

(** Modelled from the spec: blue_st_sdk/node.py is missing. A node object
    with the attributes the manager reads: [node_id] is the identity of the
    object (the class is taken to define no equality of its own, so [==] on
    nodes is identity), [tag] the hardware address, [name] the display name.
    Signal strength and advertising payload are never read by the manager
    and are left out. *)
Record Node : Type := mkNode {
  node_id : ref;
  tag : string;
  name : string;
  status : NodeStatus
}.

Global Instance Node_eq_dec : EqDecision Node.
Proof. solve_decision. Defined.

(** Modelled from the spec: the accessors of the missing [Node] class;
    [is_connected] tells whether the status is [Connected]. *)
Definition get_tag (node : Node) : string := tag node.
Definition get_name (node : Node) : string := name node.
Definition is_connected (node : Node) : bool := bool_decide (status node = Connected).

(** [node1 == node2] on node objects. *)
Definition node_eqb (a b : Node) : bool := Nat.eqb (node_id a) (node_id b).

(** A listener object, by identity. *)
Abbreviation Listener := nat.

(** A value of a mask-to-features dictionary: a feature class, or [None]. *)
Inductive pyval : Type := PyNone | FeatureClass (cls : string).

Global Instance pyval_eq_dec : EqDecision pyval.
Proof. solve_decision. Defined.

(** A mask-to-features dictionary. *)
Abbreviation Dict := (gmap Z pyval).

(** [d.get(k)]: [None] when the key is absent. *)
Definition dict_get (d : Dict) (k : Z) : pyval := default PyNone (d !! k).

(** The calls made on the listeners. A callback is taken to return normally
    and to leave the manager alone; [self._thread_pool.submit] then receives
    the callback's return value, which has no effect on the manager. *)
Inductive Event : Type :=
  | on_discovery_change (listener : Listener) (manager : ref) (enabled : bool)
  | on_node_discovered (listener : Listener) (manager : ref) (node : Node).


(** [Scanner().withDelegate(_ScannerDelegate(show_warnings))] *)
Record Scanner : Type := mkScanner { delegate_show_warnings : bool }.

(** A [_StoppableScanner] thread object: the warnings flag of its delegate,
    its timeout, and the driver failure it has caught, if any. *)
Record _StoppableScanner : Type := mk_StoppableScanner {
  thread_show_warnings : bool;
  _timeout_s : Z;
  _exc : option exn
}.

(** The attributes of a [Manager] object. [_discovered_nodes] is a reference
    to the list object: the list is mutated in place and [get_nodes] hands
    the reference out. [_thread_pool] has no state the manager reads. *)
Record Manager : Type := mkManager {
  _scanner : option Scanner;
  _is_scanning : bool;
  _discovered_nodes : ref;
  _scanner_thread : option _StoppableScanner;
  _listeners : list Listener
}.

Global Instance Manager_inhabited : Inhabited Manager :=
  populate (mkManager None false 0 None []).

(** The store: the class attributes of [Manager], the constant of
    [FeatureCharacteristic], the objects, and the calls made on listeners. *)
Record World : Type := mkWorld {
  _INSTANCE : option ref;
  _features_decoder_dic : gmap Z ref;
  DEFAULT_MASK_TO_FEATURE_DIC : ref;
  managers : gmap ref Manager;
  lists : gmap ref (list Node);
  dicts : gmap ref Dict;
  next_ref : ref;
  calls : list Event
}.

(** ** Results and sequencing *)

Inductive res (A : Type) : Type :=
  | Return (a : A) (w : World)
  | Raise (e : exn) (w : World).
Arguments Return {A} a w.
Arguments Raise {A} e w.

Definition M (A : Type) : Type := World -> res A.

Definition ret {A} (a : A) : M A := fun w => Return a w.
Definition raise {A} (e : exn) : M A := fun w => Raise e w.
Definition bind {A B} (c : M A) (k : A -> M B) : M B :=
  fun w => match c w with
           | Return a w' => k a w'
           | Raise e w' => Raise e w'
           end.

(** [try: c except <exceptions selected by h>: handler] *)
Definition try_except {A} (c : M A) (h : exn -> option (M A)) : M A :=
  fun w => match c w with
           | Return a w' => Return a w'
           | Raise e w' => match h e with
                           | Some handler => handler w'
                           | None => Raise e w'
                           end
           end.

Definition get_world : M World := fun w => Return w w.
Definition modify (f : World -> World) : M unit := fun w => Return tt (f w).

Declare Scope py_scope.
Delimit Scope py_scope with py.
Notation "x <- c ;; k" := (bind c (fun x => k))
  (at level 100, c at next level, right associativity) : py_scope.
Notation "c ;;; k" := (bind c (fun _ => k))
  (at level 100, right associativity) : py_scope.
Open Scope py_scope.

(** The world of a result, and its value. *)
Definition world_of {A} (r : res A) : World :=
  match r with Return _ w => w | Raise _ w => w end.

(** ** Access to the store *)

Definition with_INSTANCE (o : option ref) (w : World) : World :=
  mkWorld o (_features_decoder_dic w) (DEFAULT_MASK_TO_FEATURE_DIC w)
          (managers w) (lists w) (dicts w) (next_ref w) (calls w).

Definition with_features_decoder_dic (d : gmap Z ref) (w : World) : World :=
  mkWorld (_INSTANCE w) d (DEFAULT_MASK_TO_FEATURE_DIC w)
          (managers w) (lists w) (dicts w) (next_ref w) (calls w).

Definition with_managers (m : gmap ref Manager) (w : World) : World :=
  mkWorld (_INSTANCE w) (_features_decoder_dic w) (DEFAULT_MASK_TO_FEATURE_DIC w)
          m (lists w) (dicts w) (next_ref w) (calls w).

Definition with_lists (l : gmap ref (list Node)) (w : World) : World :=
  mkWorld (_INSTANCE w) (_features_decoder_dic w) (DEFAULT_MASK_TO_FEATURE_DIC w)
          (managers w) l (dicts w) (next_ref w) (calls w).

Definition with_dicts (d : gmap ref Dict) (w : World) : World :=
  mkWorld (_INSTANCE w) (_features_decoder_dic w) (DEFAULT_MASK_TO_FEATURE_DIC w)
          (managers w) (lists w) d (next_ref w) (calls w).

Definition with_next_ref (n : ref) (w : World) : World :=
  mkWorld (_INSTANCE w) (_features_decoder_dic w) (DEFAULT_MASK_TO_FEATURE_DIC w)
          (managers w) (lists w) (dicts w) n (calls w).

Definition with_calls (c : list Event) (w : World) : World :=
  mkWorld (_INSTANCE w) (_features_decoder_dic w) (DEFAULT_MASK_TO_FEATURE_DIC w)
          (managers w) (lists w) (dicts w) (next_ref w) c.

(** The object a manager reference names. *)
Definition manager_at (self : ref) (w : World) : Manager := managers w !!! self.

Definition update_manager (self : ref) (f : Manager -> Manager) (w : World) : World :=
  with_managers (<[self := f (manager_at self w)]> (managers w)) w.

Definition set_scanner (s : option Scanner) (m : Manager) : Manager :=
  mkManager s (_is_scanning m) (_discovered_nodes m) (_scanner_thread m) (_listeners m).
Definition set_is_scanning (b : bool) (m : Manager) : Manager :=
  mkManager (_scanner m) b (_discovered_nodes m) (_scanner_thread m) (_listeners m).
Definition set_scanner_thread (t : option _StoppableScanner) (m : Manager) : Manager :=
  mkManager (_scanner m) (_is_scanning m) (_discovered_nodes m) t (_listeners m).
Definition set_listeners (ls : list Listener) (m : Manager) : Manager :=
  mkManager (_scanner m) (_is_scanning m) (_discovered_nodes m) (_scanner_thread m) ls.

(** The content of a list object and of a dictionary object. *)
Definition list_at (l : ref) (w : World) : list Node := lists w !!! l.
Definition dict_at (l : ref) (w : World) : Dict := dicts w !!! l.

Definition write_list (l : ref) (ns : list Node) (w : World) : World :=
  with_lists (<[l := ns]> (lists w)) w.
Definition write_dict (l : ref) (d : Dict) (w : World) : World :=
  with_dicts (<[l := d]> (dicts w)) w.

(** A new object takes the next free reference. *)
Definition alloc : M ref :=
  w <- get_world ;;
  modify (with_next_ref (S (next_ref w))) ;;;
  ret (next_ref w).

Definition new_list (ns : list Node) : M ref :=
  l <- alloc ;; modify (write_list l ns) ;;; ret l.

Definition new_dict (d : Dict) : M ref :=
  l <- alloc ;; modify (write_dict l d) ;;; ret l.

(** The node list of a manager, read through its reference. *)
Definition nodes_of (self : ref) (w : World) : list Node :=
  list_at (_discovered_nodes (manager_at self w)) w.

(** ** The names bound in the module *)

(** The global names of manager.py: its imports and its classes. *)
Definition module_globals : list string :=
  [ "ABCMeta"; "abstractmethod"; "ThreadPoolExecutor"; "threading"; "logging";
    "Scanner"; "DefaultDelegate"; "BTLEException"; "Node"; "FeatureCharacteristic";
    "InvalidFeatureBitMaskException"; "InvalidBLEAdvertisingDataException";
    "lock"; "lock_for_object";
    "_ScannerDelegate"; "_StoppableScanner"; "Manager"; "ManagerListener" ].

(** Reading a name that is neither local nor global (nor a builtin, which
    the two names read this way are not) raises [NameError]. *)
Definition load_global (name : string) : M unit :=
  if bool_decide (name ∈ module_globals) then ret tt else raise (NameError name).

(** ** _ScannerDelegate constants *)

Definition SCANNING_TIME_DEFAULT_s : Z := 10.
Definition _SCANNING_TIME_PROCESS_s : Z := 1.

(** ** Manager *)

Definition _NUMBER_OF_THREADS : nat := 5.

(** [Manager()]: the constructor. *)
Definition Manager__init__ : M ref :=
  w <- get_world ;;
  match _INSTANCE w with
  | Some _ => raise (PyException "An instance of 'Manager' class already exists.")
  | None =>
      l <- new_list [] ;;
      self <- alloc ;;
      modify (update_manager self (fun _ => mkManager None false l None [])) ;;;
      ret self
  end.

(** [Manager.instance()] *)
Definition instance : M ref :=
  w <- get_world ;;
  match _INSTANCE w with
  | None =>
      self <- Manager__init__ ;;
      modify (with_INSTANCE (Some self)) ;;;
      ret self
  | Some self => ret self
  end.

Definition is_discovering (self : ref) : M bool :=
  w <- get_world ;; ret (_is_scanning (manager_at self w)).

(** The calls of one notification loop over [self._listeners]. *)
Definition notify_each (f : Listener -> Event) (self : ref) : M unit :=
  modify (fun w => with_calls (calls w ++ (f <$> _listeners (manager_at self w))) w).

Definition _notify_discovery_change (self : ref) (status : bool) : M unit :=
  modify (update_manager self (set_is_scanning status)) ;;;
  notify_each (fun listener => on_discovery_change listener self status) self.

Definition _notify_new_node_discovered (self : ref) (node : Node) : M unit :=
  notify_each (fun listener => on_node_discovered listener self node) self.

(** The loop of [add_node]: is there a node with tag [new_tag]? *)
Fixpoint tag_present (new_tag : string) (nodes : list Node) : bool :=
  match nodes with
  | [] => false
  | node :: rest =>
      if String.eqb new_tag (get_tag node) then true else tag_present new_tag rest
  end.

Definition add_node (self : ref) (new_node : Node) : M bool :=
  w <- get_world ;;
  let l := _discovered_nodes (manager_at self w) in
  let new_tag := get_tag new_node in
  if tag_present new_tag (list_at l w) then ret false
  else
    modify (write_list l (list_at l w ++ [new_node])) ;;;
    _notify_new_node_discovered self new_node ;;;
    ret true.

(** [get_nodes] returns the attribute itself: a reference to the list. *)
Definition get_nodes (self : ref) : M ref :=
  w <- get_world ;; ret (_discovered_nodes (manager_at self w)).

Fixpoint find_node (p : Node -> bool) (nodes : list Node) : option Node :=
  match nodes with
  | [] => None
  | node :: rest => if p node then Some node else find_node p rest
  end.


Definition get_node_with_name (self : ref) (n : string) : M (option Node) :=
  w <- get_world ;;
  ret (find_node (fun node => String.eqb (get_name node) n) (nodes_of self w)).

(** [l.remove(x)]: drops the first element equal to [x]; [None] stands for
    the [ValueError] of a list that holds no such element. *)
Fixpoint list_remove {A} (eqb : A -> A -> bool) (x : A) (l : list A) : option (list A) :=
  match l with
  | [] => None
  | y :: rest => if eqb y x then Some rest else (cons y) <$> list_remove eqb x rest
  end.

(** The loop of [remove_nodes]: [for node in self._discovered_nodes] reads
    the list object at the iterator's index [i] on every round and stops
    when [i] is past the end of the list as it is then; the body removes
    from that same list object. The list never grows, so the rounds are at
    most the length of the list at entry, which is the [fuel]. *)
Fixpoint remove_nodes_loop (fuel : nat) (l : ref) (i : nat) : M unit :=
  match fuel with
  | O => ret tt
  | S fuel' =>
      w <- get_world ;;
      match list_at l w !! i with
      | None => ret tt
      | Some node =>
          (if negb (is_connected node) then
             match list_remove node_eqb node (list_at l w) with
             | Some nodes => modify (write_list l nodes)
             | None => raise (ValueError "list.remove(x): x not in list")
             end
           else ret tt) ;;;
          remove_nodes_loop fuel' l (S i)
      end
  end.

Definition remove_nodes (self : ref) : M unit :=
  w <- get_world ;;
  let l := _discovered_nodes (manager_at self w) in
  remove_nodes_loop (length (list_at l w)) l 0.

(** ** _ScannerDelegate and the driver *)

(** An advertisement received by the driver. [adv_name] is [None] when the
    advertising data does not follow the BlueST format. *)
Record ScanEntry : Type := mkScanEntry {
  addr : string;
  rssi : Z;
  adv_name : option string
}.

(** Modelled from the spec: blue_st_sdk/node.py is missing. [Node(scan_entry)]
    builds a new node from the advertisement, its tag the hardware address,
    and raises on malformed advertising data. *)
Definition Node__init__ (scan_entry : ScanEntry) : M Node :=
  match adv_name scan_entry with
  | None => raise InvalidBLEAdvertisingDataException
  | Some n => id <- alloc ;; ret (mkNode id (addr scan_entry) n Idle)
  end.

Definition handleDiscovery (show_warnings : bool) (scan_entry : ScanEntry) : M unit :=
  manager <- instance ;;
  let device_address := addr scan_entry in
  try_except
    (l <- get_nodes manager ;;
     w <- get_world ;;
     let nodes := list_at l w in
     match find_node (fun node => String.eqb (get_tag node) device_address) nodes with
     | Some node =>
         (* node.is_alive(rssi); node.update_advertising_data(...): what they
            write in the node, the manager never reads; a failure is caught
            below. *)
         ret tt
     | None =>
         node <- Node__init__ scan_entry ;;
         add_node manager node ;;;
         ret tt
     end)
    (fun e => match e with
              | BTLEException _ _ | InvalidBLEAdvertisingDataException => Some (ret tt)
              | _ => None
              end).

(** What the driver does during one scan: the advertisements it hands to the
    delegate, in order, and the code of the [BTLEException] it then raises,
    if it does. *)
Record ScanRun : Type := mkScanRun {
  received : list ScanEntry;
  failure : option Z
}.

Fixpoint deliver (show_warnings : bool) (entries : list ScanEntry) : M unit :=
  match entries with
  | [] => ret tt
  | e :: rest => handleDiscovery show_warnings e ;;; deliver show_warnings rest
  end.

(** [scanner.scan(timeout_s)] *)
Definition Scanner_scan (s : Scanner) (timeout_s : Z) (run : ScanRun) : M unit :=
  deliver (delegate_show_warnings s) (received run) ;;;
  match failure run with
  | Some code => raise (BTLEException code "Failed to execute management command")
  | None => ret tt
  end.

Definition root_privilege_msg : string :=
  String (Ascii.ascii_of_nat 10)
    (String.append
       "Bluetooth scanning requires root privilege, so please run the script with "
       (String (Ascii.ascii_of_nat 34)
          (String.append "sudo" (String (Ascii.ascii_of_nat 34) ".")))).

(** [except BTLEException as e: raise e] *)
Definition reraise_BTLEException {A} (e : exn) : option (M A) :=
  match e with
  | BTLEException _ _ => Some (raise e)
  | _ => None
  end.

(** ** Discovery *)

Definition discover (self : ref) (show_warnings : bool) (timeout_s : Z)
    (run : ScanRun) : M bool :=
  try_except
    (scanning <- is_discovering self ;;
     if (scanning : bool) then ret false
     else
       let timeout_s :=
         if Z.eqb timeout_s 0 then SCANNING_TIME_DEFAULT_s else timeout_s in
       _notify_discovery_change self true ;;;
       modify (update_manager self (set_scanner (Some (mkScanner show_warnings)))) ;;;
       Scanner_scan (mkScanner show_warnings) timeout_s run ;;;
       _notify_discovery_change self false ;;;
       ret true)
    (fun e => match e with
              | BTLEException code _ => Some (raise (BTLEException code root_privilege_msg))
              | _ => None
              end).

(** [start()] lets the scanner thread run beside the caller: what [run]
    does to the store is [handleDiscovery] on each advertisement the driver
    receives, between the calls of the application. *)
Definition start_discovery (self : ref) (show_warnings : bool) (timeout_s : Z) : M bool :=
  try_except
    (scanning <- is_discovering self ;;
     if (scanning : bool) then ret false
     else
       let timeout_s :=
         if Z.eqb timeout_s 0 then SCANNING_TIME_DEFAULT_s else timeout_s in
       _notify_discovery_change self true ;;;
       modify (update_manager self
                 (set_scanner_thread
                    (Some (mk_StoppableScanner show_warnings timeout_s None)))) ;;;
       ret true)
    reraise_BTLEException.

Definition set_exc (e : option exn) (t : _StoppableScanner) : _StoppableScanner :=
  mk_StoppableScanner (thread_show_warnings t) (_timeout_s t) e.

(** [self._scanner_thread], on which the method [attr] is then called. *)
Definition get_scanner_thread (self : ref) (attr : string) : M _StoppableScanner :=
  w <- get_world ;;
  match _scanner_thread (manager_at self w) with
  | Some t => ret t
  | None =>
      raise (AttributeError
               (String.append "'NoneType' object has no attribute '"
                  (String.append attr "'")))
  end.

(** [_StoppableScanner.stop], on the thread [t] of the manager [owner]: once
    the scan loop has acknowledged the stop, [self._exc] is cleared and the
    driver is stopped; a failure of the driver is caught and kept in
    [self._exc]. [stop_failed] tells whether the driver fails. *)
Definition _StoppableScanner_stop (owner : ref) (t : _StoppableScanner)
    (stop_failed : bool) : M unit :=
  let exc := if stop_failed
             then Some (BTLEException 0 "Failed to execute management command")
             else None in
  modify (update_manager owner (set_scanner_thread (Some (set_exc exc t)))).

(** [_StoppableScanner.join]: raises when a failure was caught. *)
Definition _StoppableScanner_join (t : _StoppableScanner) : M unit :=
  match _exc t with
  | Some _ => raise (BTLEException 0 root_privilege_msg)
  | None => ret tt
  end.

Definition stop_discovery (self : ref) (stop_failed : bool) : M bool :=
  try_except
    (scanning <- is_discovering self ;;
     if (scanning : bool) then
       t <- get_scanner_thread self "stop" ;;
       _StoppableScanner_stop self t stop_failed ;;;
       t <- get_scanner_thread self "join" ;;
       _StoppableScanner_join t ;;;
       _notify_discovery_change self false ;;;
       ret true
     else ret false)
    reraise_BTLEException.

Definition reset_discovery (self : ref) (stop_failed : bool) : M unit :=
  try_except
    (scanning <- is_discovering self ;;
     (if (scanning : bool) then stop_discovery self stop_failed ;;; ret tt else ret tt) ;;;
     remove_nodes self)
    reraise_BTLEException.

(** ** The features decoder dictionary *)

(** The loop over the 32 masks with one bit set: [decoder] is the dictionary
    object of the device, written in place; [decoder_to_check] is the copy of
    the argument, from which the loop takes out what it registers. *)
Fixpoint register_masks (rounds : nat) (mask : Z) (decoder : ref)
    (decoder_to_check : Dict) : M Dict :=
  match rounds with
  | O => ret decoder_to_check
  | S rounds' =>
      let feature_class := dict_get decoder_to_check mask in
      match feature_class with
      | PyNone => register_masks rounds' (Z.shiftl mask 1) decoder decoder_to_check
      | FeatureClass _ =>
          w <- get_world ;;
          modify (write_dict decoder (<[mask := feature_class]> (dict_at decoder w))) ;;;
          register_masks rounds' (Z.shiftl mask 1) decoder (delete mask decoder_to_check)
      end
  end.

Definition invalid_mask_msg : string :=
  String.append
    "Not all keys of the mask-to-features dictionary have a single bit set to "
    (String (Ascii.ascii_of_nat 34)
       (String.append "1" (String (Ascii.ascii_of_nat 34) "."))).

(** The statements of [add_features_to_node] from [if device_id in ...] to
    the end (lines 516 to 534). *)
Definition add_features_to_node_body (device_id : Z) (mask_to_features_dic : Dict) : M unit :=
  w <- get_world ;;
  decoder <- match _features_decoder_dic w !! device_id with
             | Some decoder => ret decoder
             | None =>
                 decoder <- new_dict ∅ ;;
                 modify (fun w => with_features_decoder_dic
                                    (<[device_id := decoder]> (_features_decoder_dic w)) w) ;;;
                 ret decoder
             end ;;
  let decoder_to_check := mask_to_features_dic in
  decoder_to_check <- register_masks 32 1 decoder decoder_to_check ;;
  if bool_decide (decoder_to_check = ∅) then ret tt
  else raise (InvalidFeatureBitMaskException invalid_mask_msg).

(** [add_features_to_node]: its first statement is
    [manager.discover(False, SCANNING_TIME_s)], which reads the names
    [manager] and [SCANNING_TIME_s]; the rest is the body above. *)
Definition add_features_to_node (device_id : Z) (mask_to_features_dic : Dict) : M unit :=
  load_global "manager" ;;;
  load_global "SCANNING_TIME_s" ;;;
  add_features_to_node_body device_id mask_to_features_dic.

(** [get_node_features] returns a new dictionary object, a copy. *)
Definition get_node_features (device_id : Z) : M ref :=
  w <- get_world ;;
  match _features_decoder_dic w !! device_id with
  | Some decoder => new_dict (dict_at decoder w)
  | None => new_dict (dict_at (DEFAULT_MASK_TO_FEATURE_DIC w) w)
  end.

(** ** Listeners *)

(** [listener in self._listeners] *)
Fixpoint listener_in (listener : Listener) (ls : list Listener) : bool :=
  match ls with
  | [] => false
  | x :: rest => if Nat.eqb x listener then true else listener_in listener rest
  end.

(** The argument is [None] for Python's [None]. *)
Definition add_listener (self : ref) (listener : option Listener) : M unit :=
  match listener with
  | Some l =>
      w <- get_world ;;
      let ls := _listeners (manager_at self w) in
      if negb (listener_in l ls)
      then modify (update_manager self (set_listeners (ls ++ [l])))
      else ret tt
  | None => ret tt
  end.

Definition remove_listener (self : ref) (listener : option Listener) : M unit :=
  match listener with
  | Some l =>
      w <- get_world ;;
      let ls := _listeners (manager_at self w) in
      if listener_in l ls
      then match list_remove Nat.eqb l ls with
           | Some ls' => modify (update_manager self (set_listeners ls'))
           | None => raise (ValueError "list.remove(x): x not in list")
           end
      else ret tt
  | None => ret tt
  end.

(** ** The world at import time *)

(** The store once the modules are loaded: no manager, an empty features
    decoder dictionary, and the default dictionary [default_dic] of
    [FeatureCharacteristic] as the one object. *)
Definition initial_world (default_dic : Dict) : World :=
  mkWorld None ∅ 0 ∅ ∅ {[ 0 := default_dic ]} 1 [].


(** ** The notions of the properties *)

(** No two nodes of the manager's list have the same tag. *)
Definition tags_unique (self : ref) (w : World) : Prop :=
  NoDup (get_tag <$> nodes_of self w).


(** The call is a discovery notification of the manager. *)
Definition is_discovery_change_of (self : ref) (e : Event) : Prop :=
  match e with
  | on_discovery_change _ m _ => m = self
  | on_node_discovered _ _ _ => False
  end.

(** The mask has exactly one bit set, among the 32 low bits. *)
Definition single_bit_mask (k : Z) : bool :=
  existsb (fun j => Z.eqb k (Z.shiftl 1 (Z.of_nat j))) (seq 0 32).

Definition is_feature_class (v : pyval) : bool :=
  match v with PyNone => false | FeatureClass _ => true end.

(** The keys of a dictionary that [add_features_to_node] takes: a mask with
    a single bit set and a feature class as its value. *)
Definition accepted (mask_to_features_dic : Dict) (k : Z) : bool :=
  single_bit_mask k && is_feature_class (dict_get mask_to_features_dic k).

(** Every entry of the dictionary is accepted. *)
Definition all_accepted (mask_to_features_dic : Dict) : Prop :=
  map_Forall (fun k _ => accepted mask_to_features_dic k = true) mask_to_features_dic.

(** The keys that [register_masks] registers: the masks of its rounds that
    have a feature class in the dictionary to check. *)
Definition registers (rounds : nat) (mask : Z) (decoder_to_check : Dict) (k : Z) : Prop :=
  (exists j : nat, j < rounds /\ k = Z.shiftl mask (Z.of_nat j))
  /\ is_feature_class (dict_get decoder_to_check k) = true.

(** The dictionary registered for a device identifier, if there is one. *)
Definition stored_features (device_id : Z) (w : World) : option Dict :=
  (fun decoder => dict_at decoder w) <$> (_features_decoder_dic w !! device_id).

(** The built-in default dictionary. *)
Definition default_features (w : World) : Dict :=
  dict_at (DEFAULT_MASK_TO_FEATURE_DIC w) w.

(** What [get_node_features] copies for a device identifier. *)
Definition features_of (device_id : Z) (w : World) : Dict :=
  default (default_features w) (stored_features device_id w).

(** The references of the features decoder are allocated ones, no two
    device identifiers share a dictionary object, and none of them has the
    default dictionary object as its own. *)
Definition wf_features (w : World) : Prop :=
  (forall device_id decoder,
      _features_decoder_dic w !! device_id = Some decoder ->
      decoder < next_ref w /\ decoder ≠ DEFAULT_MASK_TO_FEATURE_DIC w)
  /\ DEFAULT_MASK_TO_FEATURE_DIC w < next_ref w
  /\ (forall id1 id2 decoder,
         _features_decoder_dic w !! id1 = Some decoder ->
         _features_decoder_dic w !! id2 = Some decoder -> id1 = id2).

(** A world that differs from [w] at most in the dictionary object [l]. *)
Definition dict_written (l : ref) (w w' : World) : Prop :=
  w' = w \/ exists d, w' = write_dict l d w.

(** ** Calls and sessions *)

(** The calls that change the store: the calls of the interface, and the
    scanner thread handing an advertisement to the delegate. *)
Inductive Call : Type :=
  | call_Manager
  | call_instance
  | call_discover (self : ref) (show_warnings : bool) (timeout_s : Z) (run : ScanRun)
  | call_start_discovery (self : ref) (show_warnings : bool) (timeout_s : Z)
  | call_stop_discovery (self : ref) (stop_failed : bool)
  | call_reset_discovery (self : ref) (stop_failed : bool)
  | call_add_node (self : ref) (new_node : Node)
  | call_remove_nodes (self : ref)
  | call_add_features_to_node (device_id : Z) (mask_to_features_dic : Dict)
  | call_get_node_features (device_id : Z)
  | call_add_listener (self : ref) (listener : option Listener)
  | call_remove_listener (self : ref) (listener : option Listener)
  | call_handleDiscovery (show_warnings : bool) (scan_entry : ScanEntry).

(** The store after a call, whether it returns or raises. *)
Definition exec (c : Call) (w : World) : World :=
  match c with
  | call_Manager => world_of (Manager__init__ w)
  | call_instance => world_of (instance w)
  | call_discover self sw t run => world_of (discover self sw t run w)
  | call_start_discovery self sw t => world_of (start_discovery self sw t w)
  | call_stop_discovery self sf => world_of (stop_discovery self sf w)
  | call_reset_discovery self sf => world_of (reset_discovery self sf w)
  | call_add_node self n => world_of (add_node self n w)
  | call_remove_nodes self => world_of (remove_nodes self w)
  | call_add_features_to_node id dic => world_of (add_features_to_node id dic w)
  | call_get_node_features id => world_of (get_node_features id w)
  | call_add_listener self l => world_of (add_listener self l w)
  | call_remove_listener self l => world_of (remove_listener self l w)
  | call_handleDiscovery sw e => world_of (handleDiscovery sw e w)
  end.

Fixpoint execs (cs : list Call) (w : World) : World :=
  match cs with
  | [] => w
  | c :: rest => execs rest (exec c w)
  end.


(** What a step from [w] to [w'] does as seen from an allocated manager:
    references are only added, its listener list stays free of duplicates,
    calls on listeners are only added; a [quiet] step moreover leaves its
    scanning flag alone and makes no discovery notification in its name. *)
Definition effect (self : ref) (quiet : bool) (w w' : World) : Prop :=
  self < next_ref w ->
  next_ref w <= next_ref w'
  /\ (NoDup (_listeners (manager_at self w)) -> NoDup (_listeners (manager_at self w')))
  /\ exists new, calls w' = calls w ++ new
       /\ (quiet = true ->
           _is_scanning (manager_at self w') = _is_scanning (manager_at self w)
           /\ Forall (fun e => ~ is_discovery_change_of self e) new).

Definition meffect {A} (self : ref) (quiet : bool) (c : M A) : Prop :=
  forall w, effect self quiet w (world_of (c w)).


(** ** Worlds and values of the examples *)

(** The world after [Manager.instance()] at import time: the manager is
    object 2 and its node list object 1. *)
Definition example_world : World := world_of (instance (initial_world ∅)).
Definition example_manager : ref := 2.

Definition node_A : Node := mkNode 10 "C0:50:2A:00:00:0A" "AM1V330" Idle.
Definition node_B : Node := mkNode 11 "C0:50:2A:00:00:0B" "BCN-002" Idle.
Definition node_C : Node := mkNode 12 "C0:50:2A:00:00:0C" "SensiBLE" Connected.

(** The manager after [add_node(node_A); add_node(node_B)]. *)
Definition two_idle_nodes_world : World :=
  world_of ((add_node example_manager node_A ;;;
             add_node example_manager node_B) example_world).

(** Feature classes and dictionaries of the examples. *)
Definition FeatureTemperature : pyval := FeatureClass "FeatureTemperature".
Definition FeatureHumidity : pyval := FeatureClass "FeatureHumidity".
Definition FeaturePressure : pyval := FeatureClass "FeaturePressure".

Definition example_default_dic : Dict := {[ 262144%Z := FeatureTemperature ]}.

(** The world at import time after the registration steps have stored the
    dictionary with the one mask 1 for the device identifier 128. *)
Definition registered_world : World :=
  world_of (add_features_to_node_body 128 {[ 1%Z := FeatureTemperature ]}
              (initial_world example_default_dic)).

(** The manager with the listener 7 registered, and a discovery started. *)
Definition listening_world : World :=
  world_of (add_listener example_manager (Some 7) example_world).

Definition discovering_world : World :=
  world_of (start_discovery example_manager false 5 listening_world).

Definition example_entry : ScanEntry :=
  mkScanEntry "C0:50:2A:00:00:0A" (-60) (Some "AM1V330").

(** Calls made during the discovery: the scanner thread delivers an
    advertisement, the application tries to discover again and registers
    another listener. *)
Definition example_session : list Call :=
  [ call_handleDiscovery false example_entry;
    call_discover example_manager false 0 (mkScanRun [] None);
    call_add_listener example_manager (Some 8) ].

(** ** The notions of the further properties *)

(** What the loop of [remove_nodes] leaves of a list: a node that is not
    connected is dropped, and the node after it, which has moved to the
    index the iterator has just left, stays without being looked at. *)
Fixpoint kept_by_remove_nodes (nodes : list Node) : list Node :=
  match nodes with
  | [] => []
  | x :: rest =>
      if is_connected x then x :: kept_by_remove_nodes rest
      else match rest with
           | [] => []
           | y :: rest' => y :: kept_by_remove_nodes rest'
           end
  end.

(** No two nodes that are not connected are next to each other. *)
Fixpoint unconnected_apart (nodes : list Node) : bool :=
  match nodes with
  | [] => true
  | x :: rest =>
      match rest with
      | [] => true
      | y :: _ => (is_connected x || is_connected y) && unconnected_apart rest
      end
  end.


(** A computation keeps the relation [R] between the store it starts in
    and the store it ends in, whether it returns or raises. *)
Definition keeps {A} (R : World -> World -> Prop) (c : M A) : Prop :=
  forall w, R w (world_of (c w)).


(** A singleton that is set stays the same. *)
Definition same_INSTANCE (w w' : World) : Prop :=
  forall m, _INSTANCE w = Some m -> _INSTANCE w' = Some m.

(** Node lists with distinct tags still have distinct tags. *)
Definition tags_stay_unique (w w' : World) : Prop :=
  forall self, tags_unique self w -> tags_unique self w'.

(** In a well-formed features decoder, the registrations and the default
    dictionary are the same in both stores. *)
Definition same_features (w w' : World) : Prop :=
  wf_features w ->
  wf_features w'
  /\ next_ref w <= next_ref w'
  /\ forall device_id,
      stored_features device_id w' = stored_features device_id w
      /\ features_of device_id w' = features_of device_id w.

(** ** The example: selecting the devices *)

(** [l[i]] on a list: an index below zero counts from the end; [None]
    stands for the [IndexError] of an index out of range. *)
Definition list_index {A} (l : list A) (i : Z) : option A :=
  if (0 <=? i)%Z then l !! Z.to_nat i
  else if (- Z.of_nat (length l) <=? i)%Z then l !! Z.to_nat (Z.of_nat (length l) + i)
  else None.

(** The test that ends the loop of [main] asking for a device:
    [choice >= 0 and choice <= len(discovered_devices)]. *)
Definition choice_accepted (discovered_devices : list Node) (choice : Z) : bool :=
  (choice >=? 0)%Z && (choice <=? Z.of_nat (length discovered_devices))%Z.

(** The six devices [main] takes from the list for a choice other than 0,
    [device] to [device6] in this order. *)
Definition select_devices (discovered_devices : list Node) (choice : Z)
    : option (list Node) :=
  device ← list_index discovered_devices (choice - 1);
  device2 ← list_index discovered_devices choice;
  device3 ← list_index discovered_devices (choice + 1);
  device4 ← list_index discovered_devices (choice + 2);
  device5 ← list_index discovered_devices (choice + 3);
  device6 ← list_index discovered_devices (choice + 4);
  Some [device; device2; device3; device4; device5; device6].

(** ** The scanning thread *)

(** The control flow of [_StoppableScanner.run] and [stop], apart from the
    store: the events and attributes of the thread object, and the calls
    it makes on the driver. What the delegate does to the store during
    [process] is [handleDiscovery] above. *)
Module StoppableScanner.

(** The calls on [self._scanner]. *)
Inductive DriverCall : Type :=
  | driver_clear | driver_start | driver_process | driver_stop.


(** What the thread meets: the code of the [BTLEException] that a call of
    the driver raises, if it does ([process] by the number of the round,
    from 0), and whether another thread has called [stop()] by the time a
    round tests [self._stop_called]. *)
Record Driver : Type := mkDriver {
  start_failure : option Z;
  process_failure : nat -> option Z;
  stop_failure : option Z;
  stop_requested : nat -> bool
}.

(** The thread object once [run] has begun. *)
Record state : Type := mkState {
  _timeout_s : Z;
  _stop_called : bool;
  _process_done : bool;
  _exc : option exn;
  driver_calls : list DriverCall
}.

Definition set_stop_called (b : bool) (self : state) : state :=
  mkState (_timeout_s self) b (_process_done self) (_exc self) (driver_calls self).
Definition set_process_done (b : bool) (self : state) : state :=
  mkState (_timeout_s self) (_stop_called self) b (_exc self) (driver_calls self).
Definition set_exc (e : option exn) (self : state) : state :=
  mkState (_timeout_s self) (_stop_called self) (_process_done self) e (driver_calls self).
Definition call (c : DriverCall) (self : state) : state :=
  mkState (_timeout_s self) (_stop_called self) (_process_done self) (_exc self)
          (driver_calls self ++ [c]).

(** [sys.exc_info()] of a failure of the driver. *)
Definition exc_info (code : Z) : option exn :=
  Some (BTLEException code "Failed to execute management command").

(** [stop()]: [None] when the wait for [_process_done] or [_exc] does not
    end in this state. *)
Definition stop (d : Driver) (self : state) : option state :=
  let self := set_stop_called true self in
  if _process_done self || bool_decide (is_Some (_exc self)) then
    let self := call driver_stop (set_exc None self) in
    match stop_failure d with
    | Some code => Some (set_exc (exc_info code) self)
    | None => Some self
    end
  else None.

(** The [while True] loop of [run], from round [round] on; [None] when the
    rounds allowed by [fuel] do not end it. *)
Fixpoint scan_loop (fuel : nat) (d : Driver) (round : nat) (elapsed_time_s : Z)
    (self : state) : option state :=
  match fuel with
  | O => None
  | S fuel' =>
      let self := call driver_process self in
      match process_failure d round with
      | Some code => Some (set_exc (exc_info code) self)
      | None =>
          let elapsed_time_s := (elapsed_time_s + _SCANNING_TIME_PROCESS_s)%Z in
          if stop_requested d round then
            Some (set_process_done true (set_stop_called true self))
          else if (elapsed_time_s >=? _timeout_s self)%Z then
            stop d (set_process_done true self)
          else scan_loop fuel' d (S round) elapsed_time_s self
      end
  end.

(** [run()] on a thread built with the timeout [timeout_s]. The loop ends
    within the rounds of the timeout, which are the fuel. *)
Definition run (d : Driver) (timeout_s : Z) : option state :=
  let self := mkState timeout_s false false None [driver_clear] in
  let self := call driver_start (set_exc None self) in
  match start_failure d with
  | Some code => Some (set_exc (exc_info code) self)
  | None => scan_loop (Z.to_nat (Z.max 1 timeout_s)) d 0 0 self
  end.



End StoppableScanner.

(** ** Properties *)

(** Unfolding the sequencing of the methods. *)
Ltac mrun :=
  repeat (cbv beta delta
            [bind ret raise modify get_world try_except is_discovering
             notify_each alloc new_list new_dict] in *;
          cbn beta iota in *).

(** *** Reading the store after a write *)

Lemma manager_at_write_list self l ns w :
  manager_at self (write_list l ns w) = manager_at self w.
Proof. reflexivity. Qed.


Lemma list_at_write_list l ns w : list_at l (write_list l ns w) = ns.
Proof. unfold list_at, write_list; cbn. apply lookup_total_insert_eq. Qed.

Lemma list_at_write_list_ne l l' ns w :
  l ≠ l' -> list_at l' (write_list l ns w) = list_at l' w.
Proof. intros. unfold list_at, write_list; cbn. by apply lookup_total_insert_ne. Qed.

Lemma manager_at_update self f w :
  manager_at self (update_manager self f w) = f (manager_at self w).
Proof. unfold manager_at, update_manager; cbn. apply lookup_total_insert_eq. Qed.

Lemma manager_at_update_ne self self' f w :
  self ≠ self' -> manager_at self' (update_manager self f w) = manager_at self' w.
Proof. intros. unfold manager_at, update_manager; cbn. by apply lookup_total_insert_ne. Qed.

Lemma dict_at_write_dict l d w : dict_at l (write_dict l d w) = d.
Proof. unfold dict_at, write_dict; cbn. apply lookup_total_insert_eq. Qed.

Lemma dict_at_write_dict_ne l l' d w :
  l ≠ l' -> dict_at l' (write_dict l d w) = dict_at l' w.
Proof. intros. unfold dict_at, write_dict; cbn. by apply lookup_total_insert_ne. Qed.

(** *** [add_node] *)

Lemma tag_present_spec new_tag nodes :
  tag_present new_tag nodes = true <-> new_tag ∈ get_tag <$> nodes.
Proof.
  induction nodes as [|node rest IH]; cbn.
  - split; [discriminate | by intros ?%elem_of_nil].
  - rewrite elem_of_cons. destruct (String.eqb_spec new_tag (get_tag node)) as [->|Hne].
    + split; auto.
    + rewrite IH. split; [auto | intros [?|?]; [congruence | done]].
Qed.






(** A new manager has an empty node list. *)
Lemma Manager__init__nodes w self w' :
  Manager__init__ w = Return self w' -> nodes_of self w' = [].
Proof.
  unfold Manager__init__. mrun. destruct (_INSTANCE w); [discriminate|].
  intros [= <- <-]. unfold nodes_of. rewrite manager_at_update. cbn.
  unfold list_at. cbn. apply lookup_total_insert_eq.
Qed.


(** *** Discovering while discovering *)

Lemma is_discovering_eq self w b :
  is_discovering self w = Return b w <-> _is_scanning (manager_at self w) = b.
Proof. unfold is_discovering. mrun. split; [by intros [= ->] | by intros ->]. Qed.

Lemma discover_scanning self show_warnings timeout_s run w :
  _is_scanning (manager_at self w) = true ->
  discover self show_warnings timeout_s run w = Return false w.
Proof. intros H. unfold discover. mrun. by rewrite H. Qed.

Lemma start_discovery_scanning self show_warnings timeout_s w :
  _is_scanning (manager_at self w) = true ->
  start_discovery self show_warnings timeout_s w = Return false w.
Proof. intros H. unfold start_discovery. mrun. by rewrite H. Qed.

(** C6. While [is_discovering()] is true, [discover] and [start_discovery]
    return [False] and leave the whole store as it was: the scanning flag,
    the node list, the scanner thread, and the calls made on listeners. *)
Theorem discover_while_discovering self show_warnings timeout_s run w :
  is_discovering self w = Return true w ->
  discover self show_warnings timeout_s run w = Return false w
  /\ start_discovery self show_warnings timeout_s w = Return false w.
Proof.
  intros H%is_discovering_eq. split.
  - by apply discover_scanning.
  - by apply start_discovery_scanning.
Qed.

(** *** Listeners *)

Lemma listener_in_spec (l : Listener) ls : listener_in l ls = true <-> l ∈ ls.
Proof.
  induction ls as [|x rest IH]; cbn.
  - split; [discriminate | by intros ?%elem_of_nil].
  - rewrite elem_of_cons. destruct (Nat.eqb_spec x l) as [->|Hne].
    + split; auto.
    + rewrite IH. split; [auto | intros [?|?]; [congruence | done]].
Qed.

Lemma listener_in_false (l : Listener) ls : listener_in l ls = false <-> l ∉ ls.
Proof. rewrite <- listener_in_spec. destruct (listener_in l ls); split; congruence. Qed.

Lemma list_remove_snoc (l : Listener) ls :
  l ∉ ls -> list_remove Nat.eqb l (ls ++ [l]) = Some ls.
Proof.
  induction ls as [|x rest IH]; cbn; intros Hnin.
  - by rewrite Nat.eqb_refl.
  - apply not_elem_of_cons in Hnin as [Hne Hnin].
    destruct (Nat.eqb_spec x l) as [->|_]; [done|]. by rewrite IH.
Qed.

Lemma list_remove_elem_of (l : Listener) ls :
  l ∈ ls -> exists ls', list_remove Nat.eqb l ls = Some ls'
                        /\ (forall x, x ∈ ls' -> x ∈ ls)
                        /\ (NoDup ls -> NoDup ls' /\ l ∉ ls').
Proof.
  induction ls as [|x rest IH]; cbn; intros Hin.
  - by apply elem_of_nil in Hin.
  - destruct (Nat.eqb_spec x l) as [->|Hne].
    + exists rest. split; [done|]. split; [intros; by right|].
      intros [? ?]%NoDup_cons. done.
    + apply elem_of_cons in Hin as [?|Hin]; [congruence|].
      destruct (IH Hin) as (ls' & -> & Hsub & Hnd). exists (x :: ls'). cbn.
      split; [done|]. split.
      * intros y [->|?]%elem_of_cons; [left | right; auto].
      * intros [Hx Hr]%NoDup_cons. destruct (Hnd Hr) as [Hnd' Hl]. split.
        -- apply NoDup_cons. split; [|done]. intros ?%Hsub. done.
        -- intros [?|?]%elem_of_cons; [congruence | done].
Qed.

Lemma add_listener_returns self l w :
  add_listener self (Some l) w =
    Return tt (if listener_in l (_listeners (manager_at self w)) then w
               else update_manager self
                      (set_listeners (_listeners (manager_at self w) ++ [l])) w).
Proof. unfold add_listener. mrun. by destruct (listener_in _ _). Qed.

Lemma add_listener_NoDup self l w :
  NoDup (_listeners (manager_at self w)) ->
  NoDup (_listeners (manager_at self (world_of (add_listener self l w)))).
Proof.
  intros Hnd. destruct l as [l|]; [|done]. rewrite add_listener_returns. cbn.
  destruct (listener_in l _) eqn:E; [done|]. rewrite manager_at_update. cbn.
  apply listener_in_false in E. apply NoDup_app. split; [done|]. split.
  - intros x Hx ->%list_elem_of_singleton. done.
  - apply NoDup_singleton.
Qed.


(** A new manager has no listener. *)
Lemma Manager__init__listeners w self w' :
  Manager__init__ w = Return self w' -> _listeners (manager_at self w') = [].
Proof.
  unfold Manager__init__. mrun. destruct (_INSTANCE w); [discriminate|].
  intros [= <- <-]. by rewrite manager_at_update.
Qed.

(** C9, as the code has it. With a listener list free of duplicates (as
    every list built by [add_listener] and [remove_listener] is): adding a
    listener a second time changes nothing and the listener is registered
    once; removing a listener that is not registered returns and changes
    nothing; adding a listener that was not registered and then removing it
    gives back the listener list as it was, while for a listener that was
    registered the adding changes nothing and the removing takes it out. *)
Theorem listener_set_semantics self listener w :
  NoDup (_listeners (manager_at self w)) ->
  (exists w1, add_listener self (Some listener) w = Return tt w1
              /\ add_listener self (Some listener) w1 = Return tt w1
              /\ count_occ Nat.eq_dec (_listeners (manager_at self w1)) listener = 1)
  /\ (listener ∉ _listeners (manager_at self w) ->
      remove_listener self (Some listener) w = Return tt w)
  /\ (listener ∉ _listeners (manager_at self w) ->
      exists w1 w2, add_listener self (Some listener) w = Return tt w1
                    /\ remove_listener self (Some listener) w1 = Return tt w2
                    /\ _listeners (manager_at self w2) = _listeners (manager_at self w))
  /\ (listener ∈ _listeners (manager_at self w) ->
      exists w2, add_listener self (Some listener) w = Return tt w
                 /\ remove_listener self (Some listener) w = Return tt w2
                 /\ listener ∉ _listeners (manager_at self w2)).
Proof.
  intros Hnd. split; [|split; [|split]].
  - eexists. split; [apply add_listener_returns|].
    pose proof (add_listener_NoDup self (Some listener) w Hnd) as Hnd1.
    rewrite add_listener_returns in Hnd1. cbn in Hnd1.
    set (w1 := if listener_in _ _ then _ else _) in *.
    assert (Hin : listener ∈ _listeners (manager_at self w1)).
    { subst w1. destruct (listener_in _ _) eqn:E.
      - by apply listener_in_spec.
      - rewrite manager_at_update. cbn. apply elem_of_app. right. by left. }
    split.
    + rewrite add_listener_returns. apply listener_in_spec in Hin. by rewrite Hin.
    + apply NoDup_ListNoDup in Hnd1.
      apply (proj1 (NoDup_count_occ' Nat.eq_dec _) Hnd1). by apply list_elem_of_In.
  - intros Hnin%listener_in_false. unfold remove_listener. mrun. by rewrite Hnin.
  - intros Hnin. pose proof Hnin as E%listener_in_false.
    do 2 eexists. split; [apply add_listener_returns|]. rewrite E.
    unfold remove_listener. mrun. rewrite manager_at_update. cbn.
    assert (Hin : listener_in listener (_listeners (manager_at self w) ++ [listener]) = true).
    { apply listener_in_spec, elem_of_app. right. by left. }
    rewrite Hin, list_remove_snoc by done. split; [reflexivity|].
    by rewrite manager_at_update.
  - intros Hin. pose proof Hin as E%listener_in_spec.
    rewrite add_listener_returns, E. unfold remove_listener. mrun. rewrite E.
    destruct (list_remove_elem_of listener _ Hin) as (ls' & -> & _ & Hls').
    eexists. split; [reflexivity|]. split; [reflexivity|].
    rewrite manager_at_update. cbn. by apply Hls'.
Qed.

(** ** The singleton *)

Lemma Manager__init__None w :
  _INSTANCE w = None ->
  exists w', Manager__init__ w = Return (S (next_ref w)) w'
             /\ _INSTANCE w' = None
             /\ next_ref w' = S (S (next_ref w)).
Proof. intros H. unfold Manager__init__. mrun. rewrite H. eauto. Qed.

Lemma Manager__init__Some w self :
  _INSTANCE w = Some self ->
  Manager__init__ w = Raise (PyException "An instance of 'Manager' class already exists.") w.
Proof. intros H. unfold Manager__init__. mrun. by rewrite H. Qed.

(** [instance()] sets the class attribute, and returns it from then on. *)
Lemma instance_sets_INSTANCE w self w' :
  instance w = Return self w' -> _INSTANCE w' = Some self.
Proof.
  unfold instance, bind at 1, get_world. destruct (_INSTANCE w) as [s|] eqn:E.
  - by intros [= <- <-].
  - destruct (Manager__init__None w E) as (w1 & E1 & _). unfold bind. rewrite E1.
    by intros [= <- <-].
Qed.

Lemma instance_again w self :
  _INSTANCE w = Some self -> instance w = Return self w.
Proof. intros H. unfold instance. mrun. by rewrite H. Qed.

(** After [instance()], a construction raises. *)
Lemma Manager__init__after_instance w self w' :
  instance w = Return self w' ->
  instance w' = Return self w'
  /\ Manager__init__ w' =
       Raise (PyException "An instance of 'Manager' class already exists.") w'.
Proof.
  intros H%instance_sets_INSTANCE. split.
  - by apply instance_again.
  - by eapply Manager__init__Some.
Qed.

(** Constructing never sets the class attribute, so a manager can be
    constructed again and again as long as [instance()] was not called. *)
Lemma Manager__init__twice w :
  _INSTANCE w = None ->
  exists m1 w1 m2 w2, Manager__init__ w = Return m1 w1
                      /\ Manager__init__ w1 = Return m2 w2
                      /\ m1 ≠ m2 /\ _INSTANCE w2 = None.
Proof.
  intros H. destruct (Manager__init__None w H) as (w1 & E1 & H1 & N1).
  destruct (Manager__init__None w1 H1) as (w2 & E2 & H2 & N2).
  exists (S (next_ref w)), w1, (S (next_ref w1)), w2.
  repeat split; try done. rewrite N1. lia.
Qed.

(** C8, the code at [Manager(); Manager()]: both constructions return, with
    two different objects, and no exception is raised. *)
Theorem Manager_constructed_twice :
  exists w1 w2, Manager__init__ (initial_world ∅) = Return 2 w1
                /\ Manager__init__ w1 = Return 4 w2.
Proof. do 2 eexists. split; reflexivity. Qed.

(** ** [get_nodes] *)

Lemma get_nodes_alias self w :
  exists l, get_nodes self w = Return l w /\ forall w', manager_at self w' = manager_at self w ->
    list_at l w' = nodes_of self w'.
Proof. eexists. split; [reflexivity|]. intros w' H. unfold nodes_of. by rewrite H. Qed.

(** C5, the code at [l = m.get_nodes(); m.add_node(A)] and at
    [l = m.get_nodes(); l.append(A)] on a new manager [m]: the sequence [l]
    returned for the empty node list holds [A] after the call of [add_node],
    and the manager's node list holds [A] after the append to [l]. *)
Theorem get_nodes_returns_the_list_object :
  exists l w1,
    get_nodes example_manager example_world = Return l example_world
    /\ list_at l example_world = []
    /\ add_node example_manager node_A example_world = Return true w1
    /\ list_at l w1 = [node_A]
    /\ nodes_of example_manager
         (write_list l (list_at l example_world ++ [node_A]) example_world) = [node_A].
Proof. do 2 eexists. repeat split; vm_compute; reflexivity. Qed.

(** ** [remove_nodes] *)


Lemma list_remove_lookup i (node : Node) nodes :
  nodes !! i = Some node -> is_Some (list_remove node_eqb node nodes).
Proof.
  revert i. induction nodes as [|y rest IH]; intros [|i]; cbn; try discriminate.
  - intros [= ->]. unfold node_eqb. rewrite Nat.eqb_refl. eauto.
  - intros H. destruct (node_eqb y node); [eauto|].
    destruct (IH _ H) as [r ->]. cbn. eauto.
Qed.

Lemma remove_nodes_loop_S fuel l i w :
  remove_nodes_loop (S fuel) l i w =
    match list_at l w !! i with
    | None => Return tt w
    | Some node =>
        if negb (is_connected node) then
          match list_remove node_eqb node (list_at l w) with
          | Some nodes => remove_nodes_loop fuel l (S i) (write_list l nodes w)
          | None => Raise (ValueError "list.remove(x): x not in list") w
          end
        else remove_nodes_loop fuel l (S i) w
    end.
Proof.
  cbn [remove_nodes_loop]. mrun. destruct (list_at l w !! i) as [node|]; [|done].
  destruct (negb (is_connected node)); [|done].
  by destruct (list_remove node_eqb node (list_at l w)).
Qed.



(** On a list of distinct node objects, [remove] takes out the node the
    iterator is at. *)
Lemma list_remove_at i (node : Node) nodes :
  NoDup (node_id <$> nodes) ->
  nodes !! i = Some node ->
  list_remove node_eqb node nodes = Some (delete i nodes).
Proof.
  revert i. induction nodes as [|y rest IH]; intros i Hnd Hi; [done|].
  apply NoDup_cons in Hnd as [Hy Hnd]. destruct i as [|i]; cbn in *.
  - injection Hi as ->. unfold node_eqb. by rewrite Nat.eqb_refl.
  - unfold node_eqb at 1. destruct (Nat.eqb_spec (node_id y) (node_id node)) as [E|_].
    + exfalso. apply Hy. rewrite E. apply list_elem_of_fmap_2.
      by eapply list_elem_of_lookup_2.
    + by rewrite (IH i).
Qed.




(** C2, the code at a node list of two nodes that are not connected:
    [remove_nodes] removes the first and keeps the second, which the loop
    never visits, and so does [reset_discovery]. *)
Theorem remove_nodes_skips_next_node :
  nodes_of example_manager two_idle_nodes_world = [node_A; node_B]
  /\ is_connected node_A = false /\ is_connected node_B = false
  /\ nodes_of example_manager
       (world_of (remove_nodes example_manager two_idle_nodes_world)) = [node_B]
  /\ nodes_of example_manager
       (world_of (reset_discovery example_manager false two_idle_nodes_world)) = [node_B].
Proof. repeat split; vm_compute; reflexivity. Qed.

(** ** [add_features_to_node] *)

(** The name [manager] is not bound in the module. *)
Lemma load_global_manager w : load_global "manager" w = Raise (NameError "manager") w.
Proof. reflexivity. Qed.

Lemma add_features_to_node_NameError device_id mask_to_features_dic w :
  add_features_to_node device_id mask_to_features_dic w = Raise (NameError "manager") w.
Proof. unfold add_features_to_node, bind. by rewrite load_global_manager. Qed.

(** C3, the code at the dictionary with the masks 1, 2 and 4, and at every
    other dictionary and device identifier: the call raises [NameError] on
    its first statement and registers nothing. *)
Theorem add_features_to_node_raises_NameError :
  add_features_to_node 128
    {[ 1%Z := FeatureTemperature; 2%Z := FeatureHumidity; 4%Z := FeaturePressure ]}
    (initial_world example_default_dic)
  = Raise (NameError "manager") (initial_world example_default_dic)
  /\ forall device_id mask_to_features_dic w,
      add_features_to_node device_id mask_to_features_dic w
      = Raise (NameError "manager") w.
Proof. split; [|intros]; apply add_features_to_node_NameError. Qed.

(** ** The features decoder *)

Lemma single_bit_mask_spec k :
  single_bit_mask k = true <-> exists j : nat, j < 32 /\ k = (2 ^ Z.of_nat j)%Z.
Proof.
  unfold single_bit_mask. rewrite existsb_exists. split.
  - intros (j & Hj%in_seq & ->%Z.eqb_eq). exists j. split; [lia|].
    rewrite Z.shiftl_1_l. done.
  - intros (j & Hj & ->). exists j. split; [apply in_seq; lia|].
    rewrite Z.shiftl_1_l. apply Z.eqb_refl.
Qed.

Lemma dict_get_feature_class (d : Dict) k :
  is_feature_class (dict_get d k) = true -> d !! k = Some (dict_get d k).
Proof. unfold dict_get. destruct (d !! k) as [v|]; [done|discriminate]. Qed.

Lemma registers_all_rounds (d : Dict) k :
  registers 32 1 d k <-> single_bit_mask k = true /\ is_feature_class (dict_get d k) = true.
Proof.
  unfold registers. rewrite single_bit_mask_spec.
  split; intros [(j & Hj & ->) Hv]; (split; [exists j; split; [done|]|done]).
  - by rewrite Z.shiftl_1_l.
  - by rewrite Z.shiftl_1_l.
Qed.

Lemma registers_skip rounds mask (d : Dict) k :
  is_feature_class (dict_get d mask) = false ->
  registers (S rounds) mask d k <-> registers rounds (Z.shiftl mask 1) d k.
Proof.
  intros Hnone. unfold registers. split; intros [(j & Hj & ->) Hv].
  - destruct j as [|j].
    + rewrite Z.shiftl_0_r in Hv. congruence.
    + split; [|done]. exists j. split; [lia|].
      rewrite Z.shiftl_shiftl by lia. f_equal. lia.
  - split; [|done]. exists (S j). split; [lia|].
    rewrite Z.shiftl_shiftl by lia. f_equal. lia.
Qed.

Lemma registers_take rounds mask (d : Dict) k :
  k ≠ mask ->
  registers (S rounds) mask d k <-> registers rounds (Z.shiftl mask 1) (delete mask d) k.
Proof.
  intros Hne. unfold registers, dict_get. rewrite lookup_delete_ne by done.
  split; intros [(j & Hj & ->) Hv].
  - destruct j as [|j].
    + rewrite Z.shiftl_0_r in Hne. done.
    + split; [|done]. exists j. split; [lia|].
      rewrite Z.shiftl_shiftl by lia. f_equal. lia.
  - split; [|done]. exists (S j). split; [lia|].
    rewrite Z.shiftl_shiftl by lia. f_equal. lia.
Qed.

Lemma dict_written_write l d w w' :
  dict_written l (write_dict l d w) w' -> dict_written l w w'.
Proof.
  intros [->|(d' & ->)]; right; [by exists d|]. exists d'.
  unfold write_dict, with_dicts. cbn. by rewrite insert_insert_eq.
Qed.

(** What the loop over the masks does: it returns; the keys it registers
    leave the dictionary to check and enter the decoder with their feature
    class; every other key stays as it was in both. *)
Lemma register_masks_spec rounds mask decoder (decoder_to_check : Dict) w :
  exists rest w',
    register_masks rounds mask decoder decoder_to_check w = Return rest w'
    /\ dict_written decoder w w'
    /\ (forall k, registers rounds mask decoder_to_check k ->
                  rest !! k = None
                  /\ dict_at decoder w' !! k = decoder_to_check !! k)
    /\ (forall k, ~ registers rounds mask decoder_to_check k ->
                  rest !! k = decoder_to_check !! k
                  /\ dict_at decoder w' !! k = dict_at decoder w !! k).
Proof.
  revert mask decoder_to_check w.
  induction rounds as [|rounds IH]; intros mask dtc w.
  - exists dtc, w. split; [done|]. split; [by left|]. split; [|done].
    intros k [(j & Hj & _) _]. lia.
  - cbn [register_masks].
    destruct (dict_get dtc mask) as [|cls] eqn:Eget.
    + destruct (IH (Z.shiftl mask 1) dtc w) as (rest & w' & E & Hw & Hreg & Hnot).
      exists rest, w'. split; [done|]. split; [done|].
      assert (Hnone : is_feature_class (dict_get dtc mask) = false) by by rewrite Eget.
      split; intros k Hk.
      * apply Hreg. by apply registers_skip.
      * apply Hnot. by rewrite <- registers_skip.
    + mrun.
      set (w1 := write_dict decoder (<[mask := FeatureClass cls]> (dict_at decoder w)) w).
      destruct (IH (Z.shiftl mask 1) (delete mask dtc) w1)
        as (rest & w' & E & Hw & Hreg & Hnot).
      exists rest, w'. split; [done|]. split; [by eapply dict_written_write|].
      assert (Hmask : dtc !! mask = Some (FeatureClass cls)).
      { rewrite <- Eget. apply dict_get_feature_class. by rewrite Eget. }
      assert (Hgone : ~ registers rounds (Z.shiftl mask 1) (delete mask dtc) mask).
      { intros [_ Hv]. unfold dict_get in Hv. by rewrite lookup_delete_eq in Hv. }
      split; intros k Hk.
      * destruct (decide (k = mask)) as [->|Hne].
        -- destruct (Hnot _ Hgone) as [-> ->].
           rewrite lookup_delete_eq. split; [done|].
           subst w1. rewrite dict_at_write_dict, lookup_insert_eq. done.
        -- destruct (Hreg k) as [-> ->]; [by apply registers_take|].
           by rewrite lookup_delete_ne.
      * assert (Hne : k ≠ mask).
        { intros ->. apply Hk. split; [exists 0; split; [lia|by rewrite Z.shiftl_0_r]|].
          by rewrite Eget. }
        destruct (Hnot k) as [-> ->]; [by rewrite <- registers_take|].
        rewrite lookup_delete_ne by done. split; [done|].
        subst w1. rewrite dict_at_write_dict, lookup_insert_ne by done. done.
Qed.

Lemma dict_written_frame l w w' :
  dict_written l w w' ->
  _features_decoder_dic w' = _features_decoder_dic w
  /\ DEFAULT_MASK_TO_FEATURE_DIC w' = DEFAULT_MASK_TO_FEATURE_DIC w
  /\ next_ref w' = next_ref w
  /\ (forall l', l' ≠ l -> dict_at l' w' = dict_at l' w).
Proof.
  intros [->|(d & ->)]; [done|]. repeat split. intros l' Hne.
  by apply dict_at_write_dict_ne.
Qed.

Lemma accepted_registers (dic : Dict) k :
  accepted dic k = true <-> registers 32 1 dic k.
Proof. unfold accepted. rewrite andb_true_iff. symmetry. apply registers_all_rounds. Qed.

(** What lines 516 to 534 do, for any dictionary: the device identifier is
    registered afterwards, the accepted entries of the dictionary are in its
    decoder, whatever else the dictionary holds; the other entries of the
    decoder, the other registrations and the default dictionary are as
    before. The result is an [InvalidFeatureBitMaskException] when an entry
    of the dictionary is not accepted and a return when they all are. *)
Lemma add_features_to_node_body_spec device_id (dic : Dict) w :
  wf_features w ->
  exists w' d',
    add_features_to_node_body device_id dic w =
      (if bool_decide (all_accepted dic)
       then Return tt w'
       else Raise (InvalidFeatureBitMaskException invalid_mask_msg) w')
    /\ stored_features device_id w' = Some d'
    /\ (forall k, d' !! k = if accepted dic k then dic !! k
                            else default ∅ (stored_features device_id w) !! k)
    /\ (forall id', id' ≠ device_id -> stored_features id' w' = stored_features id' w)
    /\ default_features w' = default_features w
    /\ wf_features w'.
Proof.
  intros (Hreg & Hdef & Hinj).
  unfold add_features_to_node_body. unfold bind at 1. unfold get_world.
  set (pre := match _features_decoder_dic w !! device_id with
              | Some decoder => ret decoder
              | None => _
              end).
  assert (exists decoder w0,
             pre w = Return decoder w0
             /\ _features_decoder_dic w0 !! device_id = Some decoder
             /\ dict_at decoder w0 = default ∅ (stored_features device_id w)
             /\ (forall id', id' ≠ device_id ->
                   _features_decoder_dic w0 !! id' = _features_decoder_dic w !! id')
             /\ (forall l, l < next_ref w -> l ≠ decoder -> dict_at l w0 = dict_at l w)
             /\ DEFAULT_MASK_TO_FEATURE_DIC w0 = DEFAULT_MASK_TO_FEATURE_DIC w
             /\ wf_features w0) as (decoder & w0 & Epre & Hd & Hold & Hother & Hdicts & Hdef0 & Hwf0).
  { subst pre. unfold stored_features.
    destruct (_features_decoder_dic w !! device_id) as [decoder|] eqn:E.
    - exists decoder, w. do 6 (split; [done|]). by split; [|split].
    - mrun. eexists _, _. split; [reflexivity|]. cbn.
      split; [apply lookup_insert_eq|].
      split; [apply dict_at_write_dict|].
      split; [intros; by apply lookup_insert_ne|].
      split; [intros l Hl Hne; unfold dict_at; cbn; apply lookup_total_insert_ne; lia|].
      split; [done|].
      split; [|split]; cbn.
      + intros id' d. rewrite lookup_insert. case_decide as Hid.
        * intros [= <-]. split; lia.
        * intros Hd'. destruct (Hreg _ _ Hd'). split; [lia|done].
      + lia.
      + intros id1 id2 d. rewrite !lookup_insert.
        repeat case_decide; intros H1 H2; simplify_eq; try done.
        * destruct (Hreg _ _ H2). lia.
        * destruct (Hreg _ _ H1). lia.
        * by eapply Hinj. }
  unfold bind at 1. rewrite Epre.
  destruct (register_masks_spec 32 1 decoder dic w0) as (rest & w' & E & Hw & Hin & Hout).
  unfold bind. rewrite E.
  destruct (dict_written_frame _ _ _ Hw) as (Hreg' & Hdef' & Hnext' & Hframe).
  exists w', (dict_at decoder w').
  assert (Hrest : rest = ∅ <-> all_accepted dic).
  { unfold all_accepted, map_Forall. split.
    - intros -> k v Hv. destruct (accepted dic k) eqn:Ea; [done|].
      destruct (Hout k) as [Hk _]; [by rewrite <- accepted_registers, Ea|].
      rewrite lookup_empty in Hk. congruence.
    - intros Hall. apply map_eq. intros k. rewrite lookup_empty.
      destruct (accepted dic k) eqn:Ea.
      + by apply Hin, accepted_registers.
      + destruct (Hout k) as [-> _]; [by rewrite <- accepted_registers, Ea|].
        destruct (dic !! k) eqn:Ek; [|done]. rewrite (Hall k p) in Ea; done. }
  split; [|split; [|split; [|split; [|split]]]].
  - unfold ret, raise. repeat case_bool_decide; try done; by rewrite Hrest in *.
  - unfold stored_features. by rewrite Hreg', Hd.
  - intros k. destruct (accepted dic k) eqn:Ea.
    + by apply Hin, accepted_registers.
    + destruct (Hout k) as [_ ->]; [by rewrite <- accepted_registers, Ea|].
      by rewrite Hold.
  - intros id' Hne. unfold stored_features. rewrite Hreg', Hother by done.
    destruct (_features_decoder_dic w !! id') as [d|] eqn:Ed; [|done]. cbn. f_equal.
    destruct (Hreg _ _ Ed) as [Hlt _].
    assert (d ≠ decoder).
    { intros ->. destruct Hwf0 as (_ & _ & Hinj0).
      apply Hne. eapply Hinj0; [|exact Hd]. by rewrite Hother. }
    rewrite Hframe by done. by apply Hdicts.
  - unfold default_features. rewrite Hdef', Hdef0.
    destruct Hwf0 as (Hreg0 & _ & _). destruct (Hreg0 _ _ Hd) as [_ Hned].
    rewrite Hframe by (rewrite <- Hdef0; congruence). apply Hdicts; [done|].
    rewrite <- Hdef0. congruence.
  - destruct Hwf0 as (Hreg0 & Hdef00 & Hinj0).
    unfold wf_features. rewrite Hreg', Hdef', Hnext'. done.
Qed.

Lemma initial_world_wf_features default_dic : wf_features (initial_world default_dic).
Proof.
  split; [|split]; cbn.
  - intros device_id decoder. by rewrite lookup_empty.
  - lia.
  - intros id1 id2 decoder. by rewrite lookup_empty.
Qed.

(** The registration steps succeed on a dictionary whose entries are all
    accepted; for a device identifier that was not registered, the decoder
    is then that dictionary, and [get_node_features] returns a copy of it. *)
Lemma add_features_to_node_body_valid device_id (dic : Dict) w :
  wf_features w ->
  all_accepted dic ->
  stored_features device_id w = None ->
  exists w', add_features_to_node_body device_id dic w = Return tt w'
             /\ stored_features device_id w' = Some dic
             /\ exists r w'', get_node_features device_id w' = Return r w''
                              /\ dict_at r w'' = dic.
Proof.
  intros Hwf Hall Hnone.
  destruct (add_features_to_node_body_spec device_id dic w Hwf)
    as (w' & d' & E & Hst & Hd' & _).
  rewrite bool_decide_eq_true_2 in E by done. exists w'. split; [done|].
  assert (d' = dic) as ->.
  { apply map_eq. intros k. rewrite Hd', Hnone. cbn.
    destruct (accepted dic k) eqn:Ea; [done|]. rewrite lookup_empty.
    destruct (dic !! k) as [v|] eqn:Ek; [|done]. rewrite (Hall k v Ek) in Ea. done. }
  split; [done|].
  unfold stored_features in Hst. unfold get_node_features. mrun.
  destruct (_features_decoder_dic w' !! device_id) as [decoder|]; [|done].
  cbn in Hst. injection Hst as Hst.
  eexists _, _. split; [reflexivity|]. by rewrite dict_at_write_dict.
Qed.

(** The registration steps on their own (lines 516 to 534), which no call
    reaches: on a dictionary with a key that is not a single bit among the
    32 low ones they end in an [InvalidFeatureBitMaskException], with the
    entries of the single-bit keys written into the decoder of the device
    identifier before the check. *)
Lemma add_features_to_node_body_invalid_mask device_id (dic : Dict) w :
  wf_features w ->
  (exists k, is_Some (dic !! k) /\ single_bit_mask k = false) ->
  exists w' d',
    add_features_to_node_body device_id dic w =
      Raise (InvalidFeatureBitMaskException invalid_mask_msg) w'
    /\ stored_features device_id w' = Some d'
    /\ (forall k, d' !! k = if accepted dic k then dic !! k
                            else default ∅ (stored_features device_id w) !! k)
    /\ (forall id', id' ≠ device_id -> stored_features id' w' = stored_features id' w)
    /\ default_features w' = default_features w.
Proof.
  intros Hwf (k & [v Hk] & Hbit).
  destruct (add_features_to_node_body_spec device_id dic w Hwf)
    as (w' & d' & E & Hst & Hd' & Hother & Hdef & _).
  exists w', d'. rewrite bool_decide_eq_false_2 in E; [done|].
  intros Hall. specialize (Hall k v Hk). unfold accepted in Hall.
  rewrite Hbit in Hall. done.
Qed.

(** C4, the code on a dictionary with a key that is not a single bit among
    the 32 low ones: the call raises [NameError] on its first statement
    (line 514), and not [InvalidFeatureBitMaskException]; it registers
    nothing, so the registration of every device identifier and the
    default dictionary are as they were before the call. *)
Theorem add_features_invalid_mask_raises_NameError device_id (dic : Dict) w :
  (exists k, is_Some (dic !! k) /\ single_bit_mask k = false) ->
  add_features_to_node device_id dic w = Raise (NameError "manager") w
  /\ (forall msg w',
        add_features_to_node device_id dic w
        <> Raise (InvalidFeatureBitMaskException msg) w')
  /\ (forall id,
        stored_features id (world_of (add_features_to_node device_id dic w))
        = stored_features id w)
  /\ default_features (world_of (add_features_to_node device_id dic w))
     = default_features w.
Proof.
  intros _. rewrite add_features_to_node_NameError. split; [done|].
  split; [intros msg w'; discriminate|]. done.
Qed.

(** ** [get_node_features] *)

Lemma get_node_features_spec device_id w :
  get_node_features device_id w =
    Return (next_ref w)
           (write_dict (next_ref w) (features_of device_id w)
              (with_next_ref (S (next_ref w)) w)).
Proof.
  unfold get_node_features, features_of, stored_features, default_features. mrun.
  by destruct (_features_decoder_dic w !! device_id).
Qed.

Lemma features_of_frame device_id w w' :
  wf_features w ->
  _features_decoder_dic w' = _features_decoder_dic w ->
  DEFAULT_MASK_TO_FEATURE_DIC w' = DEFAULT_MASK_TO_FEATURE_DIC w ->
  (forall l, l < next_ref w -> dict_at l w' = dict_at l w) ->
  stored_features device_id w' = stored_features device_id w
  /\ default_features w' = default_features w
  /\ features_of device_id w' = features_of device_id w.
Proof.
  intros (Hreg & Hdef & _) Hr Hd Hl.
  assert (Hs : stored_features device_id w' = stored_features device_id w).
  { unfold stored_features. rewrite Hr.
    destruct (_features_decoder_dic w !! device_id) as [d|] eqn:E; [|done]. cbn.
    f_equal. apply Hl. by destruct (Hreg _ _ E). }
  assert (Hdf : default_features w' = default_features w).
  { unfold default_features. rewrite Hd. by apply Hl. }
  unfold features_of. by rewrite Hs, Hdf.
Qed.

Lemma get_node_features_wf device_id w :
  wf_features w -> wf_features (world_of (get_node_features device_id w)).
Proof.
  intros (Hreg & Hdef & Hinj). rewrite get_node_features_spec. cbn.
  split; [|split]; cbn; [|lia|done].
  intros id d Hd. destruct (Hreg _ _ Hd). split; [lia|done].
Qed.

(** C10. [get_node_features] returns a new dictionary object holding the
    entries stored for the device identifier, or those of the default
    dictionary when it is not registered. Whatever is then written into the
    returned dictionary, the features decoder and the default dictionary
    are as before, for every device identifier, and a later call returns
    the same entries again, in yet another object. *)
Theorem get_node_features_returns_copy device_id w :
  wf_features w ->
  exists r w1,
    get_node_features device_id w = Return r w1
    /\ dict_at r w1 = features_of device_id w
    /\ forall mutated : Dict,
        let w2 := write_dict r mutated w1 in
        (forall id, stored_features id w2 = stored_features id w)
        /\ default_features w2 = default_features w
        /\ exists r2 w3, get_node_features device_id w2 = Return r2 w3
                         /\ r2 ≠ r
                         /\ dict_at r2 w3 = features_of device_id w.
Proof.
  intros Hwf. rewrite get_node_features_spec. eexists _, _. split; [reflexivity|].
  split; [apply dict_at_write_dict|]. intros mutated w2.
  assert (Hframe : forall id,
             stored_features id w2 = stored_features id w
             /\ default_features w2 = default_features w
             /\ features_of id w2 = features_of id w).
  { intros id. apply features_of_frame; [done..|].
    intros l Hl. unfold w2, dict_at; cbn.
    rewrite !lookup_total_insert_ne by lia. done. }
  split; [intros id; apply Hframe|]. split; [apply (Hframe device_id)|].
  rewrite get_node_features_spec. eexists _, _. split; [reflexivity|].
  split; [cbn; lia|]. rewrite dict_at_write_dict. apply Hframe.
Qed.

(** ** The effect of the calls on a manager *)

Section Effects.

Variable self : ref.

Lemma effect_refl q w : effect self q w w.
Proof.
  intros _. split; [done|]. split; [done|]. exists []. split; [by rewrite app_nil_r|].
  intros _. split; [done|]. constructor.
Qed.

Lemma effect_trans q w1 w2 w3 :
  effect self q w1 w2 -> effect self q w2 w3 -> effect self q w1 w3.
Proof.
  intros H12 H23 Hself.
  destruct (H12 Hself) as (Hn1 & Hnd1 & new1 & Hc1 & Hq1).
  destruct (H23 ltac:(lia)) as (Hn2 & Hnd2 & new2 & Hc2 & Hq2).
  split; [lia|]. split; [auto|]. exists (new1 ++ new2).
  split; [by rewrite Hc2, Hc1, app_assoc|].
  intros Hq. destruct (Hq1 Hq) as [Hf1 Hall1]. destruct (Hq2 Hq) as [Hf2 Hall2].
  split; [congruence|]. by apply Forall_app.
Qed.


(** A step that leaves the manager object and the calls alone. *)
Lemma effect_frame w w' :
  next_ref w <= next_ref w' ->
  (self < next_ref w -> manager_at self w' = manager_at self w) ->
  calls w' = calls w ->
  effect self true w w'.
Proof.
  intros Hn Hm Hc Hself. rewrite (Hm Hself). split; [done|]. split; [done|].
  exists []. split; [by rewrite app_nil_r|]. intros _. split; [done|]. constructor.
Qed.


Lemma meffect_ret {A} q (a : A) : meffect self q (ret a).
Proof. intros w. apply effect_refl. Qed.

Lemma meffect_raise {A} q e : meffect self q (@raise A e).
Proof. intros w. apply effect_refl. Qed.


Lemma meffect_bind {A B} q (c : M A) (k : A -> M B) :
  meffect self q c -> (forall a, meffect self q (k a)) -> meffect self q (bind c k).
Proof.
  intros Hc Hk w. unfold bind. specialize (Hc w).
  destruct (c w) as [a w1|e w1]; [|done]. cbn in Hc.
  eapply effect_trans; [exact Hc|apply Hk].
Qed.


Lemma meffect_get_world q : meffect self q get_world.
Proof. intros w. apply effect_refl. Qed.

Lemma meffect_modify q f :
  (forall w, effect self q w (f w)) -> meffect self q (modify f).
Proof. intros H w. apply H. Qed.


(** A continuation that is given the world it runs in. *)
Lemma meffect_with_world {A} q (k : World -> M A) :
  (forall w, effect self q w (world_of (k w w))) ->
  meffect self q (w <- get_world ;; k w).
Proof. intros H w. apply H. Qed.

Lemma meffect_alloc : meffect self true alloc.
Proof.
  apply meffect_with_world. intros w. apply effect_frame; cbn; [lia|done|done].
Qed.


Lemma meffect_write_dict l d : meffect self true (modify (write_dict l d)).
Proof. apply meffect_modify. intros w. by apply effect_frame. Qed.


Lemma meffect_new_dict d : meffect self true (new_dict d).
Proof.
  apply meffect_bind; [apply meffect_alloc|]. intros l.
  apply meffect_bind; [apply meffect_write_dict|]. intros _. apply meffect_ret.
Qed.




End Effects.

Section CallEffects.

Variable self : ref.



















End CallEffects.

Section SessionEffects.

Variable self : ref.

Lemma meffect_register_masks rounds mask decoder (decoder_to_check : Dict) :
  meffect self true (register_masks rounds mask decoder decoder_to_check).
Proof.
  revert mask decoder_to_check.
  induction rounds as [|rounds IH]; intros mask dtc; cbn [register_masks].
  - apply meffect_ret.
  - destruct (dict_get dtc mask); [apply IH|].
    apply meffect_bind; [apply meffect_get_world|]. intros w.
    apply meffect_bind; [apply meffect_write_dict|]. intros _. apply IH.
Qed.

Lemma meffect_add_features_to_node_body device_id (dic : Dict) :
  meffect self true (add_features_to_node_body device_id dic).
Proof.
  apply meffect_bind; [apply meffect_get_world|]. intros w.
  apply meffect_bind.
  - destruct (_features_decoder_dic w !! device_id); [apply meffect_ret|].
    apply meffect_bind; [apply meffect_new_dict|]. intros decoder.
    apply meffect_bind; [|intros; apply meffect_ret].
    apply meffect_modify. intros w'. by apply effect_frame.
  - intros decoder. apply meffect_bind; [apply meffect_register_masks|].
    intros rest. case_bool_decide; [apply meffect_ret|apply meffect_raise].
Qed.




End SessionEffects.

(** ** Stopping a discovery *)











Lemma add_features_to_node_body_wf device_id (dic : Dict) w :
  wf_features w -> wf_features (world_of (add_features_to_node_body device_id dic w)).
Proof.
  intros Hwf.
  destruct (add_features_to_node_body_spec device_id dic w Hwf)
    as (w' & d' & E & _ & _ & _ & _ & Hwf').
  rewrite E. case_bool_decide; exact Hwf'.
Qed.

Lemma registered_world_wf : wf_features registered_world.
Proof. apply add_features_to_node_body_wf, initial_world_wf_features. Qed.

(** ** The theorems at concrete calls *)


Lemma discover_while_discovering_witness :
  discover example_manager false 5 (mkScanRun [example_entry] None) discovering_world
    = Return false discovering_world
  /\ start_discovery example_manager false 5 discovering_world
     = Return false discovering_world.
Proof. apply discover_while_discovering. vm_compute. reflexivity. Defined.


Lemma listener_set_semantics_witness :
  (exists w1, add_listener example_manager (Some 7) example_world = Return tt w1
              /\ add_listener example_manager (Some 7) w1 = Return tt w1
              /\ count_occ Nat.eq_dec (_listeners (manager_at example_manager w1)) 7 = 1)
  /\ remove_listener example_manager (Some 7) example_world = Return tt example_world
  /\ (exists w1 w2, add_listener example_manager (Some 7) example_world = Return tt w1
                    /\ remove_listener example_manager (Some 7) w1 = Return tt w2
                    /\ _listeners (manager_at example_manager w2)
                       = _listeners (manager_at example_manager example_world))
  /\ (exists w2, add_listener example_manager (Some 7) listening_world
                 = Return tt listening_world
                 /\ remove_listener example_manager (Some 7) listening_world = Return tt w2
                 /\ 7 ∉ _listeners (manager_at example_manager w2)).
Proof.
  destruct (listener_set_semantics example_manager 7 example_world)
    as (Hadd & Hrem & Hboth & _).
  { vm_compute. constructor. }
  destruct (listener_set_semantics example_manager 7 listening_world)
    as (_ & _ & _ & Hreg).
  { vm_compute. apply NoDup_singleton. }
  split; [exact Hadd|]. split; [|split].
  - apply Hrem. apply (bool_decide_unpack _). vm_compute. exact I.
  - apply Hboth. apply (bool_decide_unpack _). vm_compute. exact I.
  - apply Hreg. apply (bool_decide_unpack _). vm_compute. exact I.
Defined.

(** C9 at a listener that is registered: adding it again and then removing
    it leaves the manager without it, not as it was. *)
Lemma add_then_remove_registered_listener :
  exists w1 w2,
    add_listener example_manager (Some 7) listening_world = Return tt w1
    /\ remove_listener example_manager (Some 7) w1 = Return tt w2
    /\ _listeners (manager_at example_manager listening_world) = [7]
    /\ _listeners (manager_at example_manager w2) = []
    /\ _listeners (manager_at example_manager w2)
       ≠ _listeners (manager_at example_manager listening_world).
Proof.
  do 2 eexists. split; [vm_compute; reflexivity|]. split; [vm_compute; reflexivity|].
  split; [vm_compute; reflexivity|]. split; [vm_compute; reflexivity|].
  vm_compute. discriminate.
Qed.

Lemma add_features_invalid_mask_raises_NameError_witness :
  add_features_to_node 128 {[ 3%Z := FeaturePressure ]} registered_world
  = Raise (NameError "manager") registered_world
  /\ stored_features 128
       (world_of (add_features_to_node 128 {[ 3%Z := FeaturePressure ]} registered_world))
     = stored_features 128 registered_world.
Proof.
  destruct (add_features_invalid_mask_raises_NameError 128
              {[ 3%Z := FeaturePressure ]} registered_world) as (E & _ & Hs & _).
  - exists 3%Z. split; [|reflexivity]. vm_compute. eauto.
  - split; [exact E|apply Hs].
Defined.

Lemma get_node_features_returns_copy_witness :
  exists r w1,
    get_node_features 128 registered_world = Return r w1
    /\ dict_at r w1 = features_of 128 registered_world
    /\ forall mutated : Dict,
        let w2 := write_dict r mutated w1 in
        (forall id, stored_features id w2 = stored_features id registered_world)
        /\ default_features w2 = default_features registered_world
        /\ exists r2 w3, get_node_features 128 w2 = Return r2 w3
                         /\ r2 ≠ r
                         /\ dict_at r2 w3 = features_of 128 registered_world.
Proof. apply get_node_features_returns_copy. apply registered_world_wf. Defined.

(** ** What [remove_nodes] leaves *)

Lemma remove_nodes_loop_kept fuel l pre suf w :
  list_at l w = pre ++ suf ->
  NoDup (node_id <$> list_at l w) ->
  length suf <= fuel ->
  exists w', remove_nodes_loop fuel l (length pre) w = Return tt w'
             /\ managers w' = managers w
             /\ list_at l w' = pre ++ kept_by_remove_nodes suf.
Proof.
  revert pre suf w. induction fuel as [|fuel IH]; intros pre suf w Hl Hnd Hlen.
  - destruct suf; [|cbn in Hlen; lia]. exists w. by rewrite Hl.
  - rewrite remove_nodes_loop_S. destruct suf as [|x rest].
    { rewrite Hl, app_nil_r, (proj2 (lookup_ge_None pre (length pre))) by lia.
      exists w. by rewrite Hl. }
    assert (Hx : list_at l w !! length pre = Some x).
    { rewrite Hl. by rewrite list_lookup_middle. }
    rewrite Hx. cbn [kept_by_remove_nodes]. cbn in Hlen.
    destruct (is_connected x); cbn [negb].
    + destruct (IH (pre ++ [x]) rest w) as (w' & E & Hm & Hl').
      { by rewrite <- app_assoc. } { done. } { lia. }
      rewrite length_app, Nat.add_1_r in E. exists w'.
      split; [done|]. split; [done|]. by rewrite Hl', <- app_assoc.
    + rewrite (list_remove_at _ _ _ Hnd Hx).
      set (w1 := write_list l (delete (length pre) (list_at l w)) w).
      assert (E1 : list_at l w1 = pre ++ rest).
      { unfold w1. rewrite list_at_write_list, Hl, delete_middle. done. }
      assert (Hnd1 : NoDup (node_id <$> list_at l w1)).
      { unfold w1. rewrite list_at_write_list, list_fmap_delete.
        eapply sublist_NoDup; [done|apply sublist_delete]. }
      destruct rest as [|y rest'].
      * exists w1. split; [|split; [done|by rewrite E1]].
        destruct fuel; [done|]. rewrite remove_nodes_loop_S, E1, app_nil_r.
        by rewrite (proj2 (lookup_ge_None pre (S (length pre)))) by lia.
      * cbn in Hlen. destruct (IH (pre ++ [y]) rest' w1) as (w' & E & Hm & Hl').
        { by rewrite E1, <- app_assoc. } { done. } { lia. }
        rewrite length_app, Nat.add_1_r in E. exists w'.
        split; [done|]. split; [done|]. by rewrite Hl', <- app_assoc.
Qed.

Lemma kept_by_remove_nodes_connected x rest :
  is_connected x = true ->
  kept_by_remove_nodes (x :: rest) = x :: kept_by_remove_nodes rest.
Proof. intros H. cbn [kept_by_remove_nodes]. by rewrite H. Qed.

Lemma kept_by_remove_nodes_unconnected x y rest :
  is_connected x = false ->
  kept_by_remove_nodes (x :: y :: rest) = y :: kept_by_remove_nodes rest.
Proof. intros H. cbn [kept_by_remove_nodes]. by rewrite H. Qed.

Lemma unconnected_apart_cons x y rest :
  unconnected_apart (x :: y :: rest)
  = (is_connected x || is_connected y) && unconnected_apart (y :: rest).
Proof. reflexivity. Qed.

Lemma filter_cons_true {A} (f : A -> bool) x l :
  f x = true -> List.filter f (x :: l) = x :: List.filter f l.
Proof. intros H. cbn. by rewrite H. Qed.

Lemma filter_cons_false {A} (f : A -> bool) x l :
  f x = false -> List.filter f (x :: l) = List.filter f l.
Proof. intros H. cbn. by rewrite H. Qed.

Lemma kept_by_remove_nodes_filter_le n nodes :
  length nodes <= n ->
  kept_by_remove_nodes nodes = List.filter is_connected nodes
  <-> unconnected_apart nodes = true.
Proof.
  revert nodes. induction n as [|n IH]; intros nodes Hn.
  { destruct nodes; [done|cbn in Hn; lia]. }
  destruct nodes as [|x rest]; [done|]. cbn [length] in Hn.
  destruct (is_connected x) eqn:Ex.
  - rewrite kept_by_remove_nodes_connected, filter_cons_true by done.
    destruct rest as [|y rest']; [done|].
    rewrite unconnected_apart_cons, Ex. cbn [orb andb].
    specialize (IH (y :: rest') ltac:(cbn [length] in *; lia)).
    split; [intros [= E]; by apply IH | intros E%IH; by rewrite E].
  - rewrite filter_cons_false by done.
    destruct rest as [|y rest']; [cbn [kept_by_remove_nodes]; by rewrite Ex|].
    rewrite kept_by_remove_nodes_unconnected, unconnected_apart_cons, Ex by done.
    cbn [length] in Hn. destruct (is_connected y) eqn:Ey; cbn [orb andb].
    + rewrite filter_cons_true by done.
      specialize (IH (y :: rest') ltac:(cbn [length] in *; lia)).
      rewrite kept_by_remove_nodes_connected, filter_cons_true in IH by done.
      split; [intros E; apply IH; by rewrite E | intros E%IH; by injection E as ->].
    + rewrite filter_cons_false by done. split; [|done]. intros Heq.
      assert (Hin : In y (List.filter is_connected rest')) by (rewrite <- Heq; by left).
      apply filter_In in Hin as [_ Hy]. congruence.
Qed.

Lemma remove_nodes_kept self w :
  NoDup (node_id <$> nodes_of self w) ->
  exists w', remove_nodes self w = Return tt w'
             /\ managers w' = managers w
             /\ nodes_of self w' = kept_by_remove_nodes (nodes_of self w).
Proof.
  intros Hnd. unfold remove_nodes. mrun.
  destruct (remove_nodes_loop_kept (length (nodes_of self w))
              (_discovered_nodes (manager_at self w)) [] (nodes_of self w) w)
    as (w' & E & Hm & Hl); [done..|].
  exists w'. split; [exact E|]. split; [done|].
  unfold nodes_of, manager_at. by rewrite Hm.
Qed.

(** X1. On a list of distinct node objects, [remove_nodes] returns and
    leaves the list with every node that is not connected dropped and the
    node that followed it kept unvisited; what is left is exactly the
    connected nodes if and only if no two nodes that are not connected were
    next to each other. *)
Theorem remove_nodes_leaves self w :
  NoDup (node_id <$> nodes_of self w) ->
  exists w', remove_nodes self w = Return tt w'
             /\ nodes_of self w' = kept_by_remove_nodes (nodes_of self w)
             /\ (nodes_of self w' = List.filter is_connected (nodes_of self w)
                 <-> unconnected_apart (nodes_of self w) = true).
Proof.
  intros Hnd. destruct (remove_nodes_kept self w Hnd) as (w' & E & _ & Hl).
  exists w'. split; [done|]. split; [done|]. rewrite Hl.
  by apply (kept_by_remove_nodes_filter_le (length (nodes_of self w))).
Qed.

(** ** Looking a node up *)

Lemma find_node_Some p nodes m :
  find_node p nodes = Some m <->
  exists l1 l2, nodes = l1 ++ m :: l2 /\ p m = true /\ Forall (fun x => p x = false) l1.
Proof.
  induction nodes as [|x rest IH]; cbn.
  - split; [discriminate|]. intros (l1 & l2 & E & _). by destruct l1.
  - destruct (p x) eqn:Ex.
    + split.
      * intros [= ->]. exists [], rest. by repeat split.
      * intros ([|y l1] & l2 & E & Hm & Hl1); simplify_eq/=; [done|].
        apply Forall_cons in Hl1 as [Hy _]. congruence.
    + rewrite IH. split.
      * intros (l1 & l2 & -> & Hm & Hl1). exists (x :: l1), l2.
        split; [done|]. split; [done|]. by constructor.
      * intros ([|y l1] & l2 & E & Hm & Hl1); simplify_eq/=; [congruence|].
        apply Forall_cons in Hl1 as [_ Hl1]. eauto.
Qed.

Lemma find_node_None p nodes :
  find_node p nodes = None <-> Forall (fun x => p x = false) nodes.
Proof.
  induction nodes as [|x rest IH]; cbn; [done|].
  destruct (p x) eqn:Ex.
  - split; [discriminate|]. intros [? _]%Forall_cons. congruence.
  - rewrite IH. split; [by constructor|by intros [_ ?]%Forall_cons].
Qed.




(** X3. [get_node_with_name] never raises: it gives the first node of the
    list, in list order, whose name is the one asked for, and [None] when
    no node has that name. *)
Theorem get_node_with_name_first self n w :
  exists r, get_node_with_name self n w = Return r w
            /\ match r with
               | Some m =>
                   exists l1 l2, nodes_of self w = l1 ++ m :: l2
                                 /\ get_name m = n
                                 /\ forall x, x ∈ l1 -> get_name x ≠ n
               | None => forall x, x ∈ nodes_of self w -> get_name x ≠ n
               end.
Proof.
  eexists. split; [reflexivity|].
  destruct (find_node _ _) as [m|] eqn:E.
  - apply find_node_Some in E as (l1 & l2 & El & Hm & Hl1).
    exists l1, l2. split; [done|]. split; [by apply String.eqb_eq|].
    intros x Hx. rewrite Forall_forall in Hl1. by apply String.eqb_neq, Hl1.
  - apply find_node_None in E. rewrite Forall_forall in E.
    intros x Hx. by apply String.eqb_neq, E.
Qed.

(** ** Notifying a new node *)



(** ** Relations that the calls keep *)

Section Keeps.

Variable R : World -> World -> Prop.
Hypothesis R_refl : forall w, R w w.
Hypothesis R_trans : forall w1 w2 w3, R w1 w2 -> R w2 w3 -> R w1 w3.

Lemma keeps_ret {A} (a : A) : keeps R (ret a).
Proof. intros w. apply R_refl. Qed.

Lemma keeps_raise {A} e : keeps R (@raise A e).
Proof. intros w. apply R_refl. Qed.

Lemma keeps_bind {A B} (c : M A) (k : A -> M B) :
  keeps R c -> (forall a, keeps R (k a)) -> keeps R (bind c k).
Proof.
  intros Hc Hk w. unfold bind. specialize (Hc w).
  destruct (c w) as [a w1|e w1]; [|done]. cbn in Hc.
  eapply R_trans; [exact Hc|apply Hk].
Qed.

Lemma keeps_try_except {A} (c : M A) h :
  keeps R c ->
  (forall e handler, h e = Some handler -> keeps R handler) ->
  keeps R (try_except c h).
Proof.
  intros Hc Hh w. unfold try_except. specialize (Hc w).
  destruct (c w) as [a w1|e w1]; [done|]. cbn in Hc.
  destruct (h e) as [handler|] eqn:E; [|done].
  eapply R_trans; [exact Hc|by eapply Hh].
Qed.

Lemma keeps_with_world {A} (k : World -> M A) :
  (forall w, R w (world_of (k w w))) -> keeps R (w <- get_world ;; k w).
Proof. intros H w. apply H. Qed.

Lemma keeps_modify f : (forall w, R w (f w)) -> keeps R (modify f).
Proof. intros H w. apply H. Qed.

Lemma keeps_reraise {A} e handler :
  @reraise_BTLEException A e = Some handler -> keeps R handler.
Proof. destruct e; intros [= <-]; apply keeps_raise. Qed.

Lemma keeps_is_discovering s : keeps R (is_discovering s).
Proof. intros w. apply R_refl. Qed.

Section Delivery.

Hypothesis K_instance : keeps R instance.
Hypothesis K_Node__init__ : forall e, keeps R (Node__init__ e).
Hypothesis K_add_node : forall s n, keeps R (add_node s n).

Lemma keeps_handleDiscovery show_warnings scan_entry :
  keeps R (handleDiscovery show_warnings scan_entry).
Proof.
  apply keeps_bind; [apply K_instance|]. intros manager.
  apply keeps_try_except.
  - apply keeps_bind; [intros w; apply R_refl|]. intros l.
    apply keeps_with_world. intros w. cbv zeta.
    destruct (find_node _ (list_at l w)); [apply R_refl|].
    apply keeps_bind; [apply K_Node__init__|]. intros node.
    apply keeps_bind; [apply K_add_node|]. intros; apply keeps_ret.
  - intros e handler. destruct e; intros [= <-]; apply keeps_ret.
Qed.

Lemma keeps_deliver show_warnings entries : keeps R (deliver show_warnings entries).
Proof.
  induction entries as [|e rest IH]; cbn [deliver]; [apply keeps_ret|].
  apply keeps_bind; [apply keeps_handleDiscovery|]. intros _. apply IH.
Qed.

Lemma keeps_Scanner_scan s timeout_s run : keeps R (Scanner_scan s timeout_s run).
Proof.
  apply keeps_bind; [apply keeps_deliver|]. intros _.
  destruct (failure run); [apply keeps_raise|apply keeps_ret].
Qed.

Section Calls.

Hypothesis K_notify : forall s status, keeps R (_notify_discovery_change s status).
Hypothesis K_set_scanner : forall s x w, R w (update_manager s (set_scanner x) w).
Hypothesis K_set_scanner_thread :
  forall s x w, R w (update_manager s (set_scanner_thread x) w).
Hypothesis K_remove_nodes : forall s, keeps R (remove_nodes s).
Hypothesis K_Manager__init__ : keeps R Manager__init__.
Hypothesis K_add_listener : forall s l, keeps R (add_listener s l).
Hypothesis K_remove_listener : forall s l, keeps R (remove_listener s l).
Hypothesis K_get_node_features : forall device_id, keeps R (get_node_features device_id).

Lemma keeps_discover s show_warnings timeout_s run :
  keeps R (discover s show_warnings timeout_s run).
Proof.
  apply keeps_try_except.
  - apply keeps_bind; [apply keeps_is_discovering|]. intros [|]; [apply keeps_ret|].
    apply keeps_bind; [apply K_notify|]. intros _.
    apply keeps_bind; [apply keeps_modify, K_set_scanner|]. intros _.
    apply keeps_bind; [apply keeps_Scanner_scan|]. intros _.
    apply keeps_bind; [apply K_notify|]. intros _. apply keeps_ret.
  - intros e handler. destruct e; intros [= <-]; apply keeps_raise.
Qed.

Lemma keeps_start_discovery s show_warnings timeout_s :
  keeps R (start_discovery s show_warnings timeout_s).
Proof.
  apply keeps_try_except; [|apply keeps_reraise].
  apply keeps_bind; [apply keeps_is_discovering|]. intros [|]; [apply keeps_ret|].
  apply keeps_bind; [apply K_notify|]. intros _.
  apply keeps_bind; [apply keeps_modify, K_set_scanner_thread|].
  intros; apply keeps_ret.
Qed.

Lemma keeps_get_scanner_thread s attr : keeps R (get_scanner_thread s attr).
Proof.
  apply keeps_with_world. intros w.
  destruct (_scanner_thread _); apply R_refl.
Qed.

Lemma keeps_stop_discovery s stop_failed : keeps R (stop_discovery s stop_failed).
Proof.
  apply keeps_try_except; [|apply keeps_reraise].
  apply keeps_bind; [apply keeps_is_discovering|]. intros [|]; [|apply keeps_ret].
  apply keeps_bind; [apply keeps_get_scanner_thread|]. intros t.
  apply keeps_bind; [apply keeps_modify, K_set_scanner_thread|]. intros _.
  apply keeps_bind; [apply keeps_get_scanner_thread|]. intros t'.
  apply keeps_bind.
  { unfold _StoppableScanner_join. destruct (_exc t'); [apply keeps_raise|apply keeps_ret]. }
  intros _. apply keeps_bind; [apply K_notify|]. intros; apply keeps_ret.
Qed.

Lemma keeps_reset_discovery s stop_failed : keeps R (reset_discovery s stop_failed).
Proof.
  apply keeps_try_except; [|apply keeps_reraise].
  apply keeps_bind; [apply keeps_is_discovering|]. intros scanning.
  apply keeps_bind; [|intros; apply K_remove_nodes].
  destruct scanning; [|apply keeps_ret].
  apply keeps_bind; [apply keeps_stop_discovery|]. intros; apply keeps_ret.
Qed.

(** A relation that the parts keep is kept by every call, and by every
    sequence of calls. *)
Lemma keeps_exec c w : R w (exec c w).
Proof.
  destruct c; cbn [exec].
  - apply K_Manager__init__.
  - apply K_instance.
  - apply keeps_discover.
  - apply keeps_start_discovery.
  - apply keeps_stop_discovery.
  - apply keeps_reset_discovery.
  - apply K_add_node.
  - apply K_remove_nodes.
  - rewrite add_features_to_node_NameError. apply R_refl.
  - apply K_get_node_features.
  - apply K_add_listener.
  - apply K_remove_listener.
  - apply keeps_handleDiscovery.
Qed.

Lemma keeps_execs cs w : R w (execs cs w).
Proof.
  revert w. induction cs as [|c rest IH]; intros w; cbn [execs]; [apply R_refl|].
  eapply R_trans; [apply keeps_exec|apply IH].
Qed.

End Calls.

End Delivery.

End Keeps.

(** ** What each part writes *)

Lemma instance_cases w :
  instance w =
    match _INSTANCE w with
    | Some self => Return self w
    | None =>
        Return (S (next_ref w))
          (with_INSTANCE (Some (S (next_ref w)))
             (update_manager (S (next_ref w))
                (fun _ => mkManager None false (next_ref w) None [])
                (with_next_ref (S (S (next_ref w)))
                   (write_list (next_ref w) [] (with_next_ref (S (next_ref w)) w)))))
    end.
Proof.
  unfold instance, Manager__init__. mrun. destruct (_INSTANCE w) eqn:E; [done|].
  by rewrite E.
Qed.

Lemma Manager__init__cases w :
  Manager__init__ w =
    match _INSTANCE w with
    | Some _ => Raise (PyException "An instance of 'Manager' class already exists.") w
    | None =>
        Return (S (next_ref w))
          (update_manager (S (next_ref w))
             (fun _ => mkManager None false (next_ref w) None [])
             (with_next_ref (S (S (next_ref w)))
                (write_list (next_ref w) [] (with_next_ref (S (next_ref w)) w))))
    end.
Proof. unfold Manager__init__. mrun. by destruct (_INSTANCE w). Qed.

Lemma Node__init__cases scan_entry w :
  Node__init__ scan_entry w =
    match adv_name scan_entry with
    | None => Raise InvalidBLEAdvertisingDataException w
    | Some n =>
        Return (mkNode (next_ref w) (addr scan_entry) n Idle)
               (with_next_ref (S (next_ref w)) w)
    end.
Proof. unfold Node__init__. by destruct (adv_name scan_entry). Qed.

Lemma add_node_cases self new_node w :
  add_node self new_node w =
    if tag_present (get_tag new_node) (nodes_of self w) then Return false w
    else Return true
           (with_calls
              (calls w ++ ((fun listener => on_node_discovered listener self new_node)
                             <$> _listeners (manager_at self w)))
              (write_list (_discovered_nodes (manager_at self w))
                 (nodes_of self w ++ [new_node]) w)).
Proof.
  unfold add_node, _notify_new_node_discovered. mrun. fold (nodes_of self w).
  by destruct (tag_present _ _).
Qed.

Lemma _notify_discovery_change_eq self status w :
  _notify_discovery_change self status w =
    Return tt
      (with_calls
         (calls w ++ ((fun listener => on_discovery_change listener self status)
                        <$> _listeners (manager_at self w)))
         (update_manager self (set_is_scanning status) w)).
Proof.
  unfold _notify_discovery_change. mrun. by rewrite manager_at_update.
Qed.

Lemma list_remove_sublist {A} (eqb : A -> A -> bool) x l l' :
  list_remove eqb x l = Some l' -> l' `sublist_of` l.
Proof.
  revert l'. induction l as [|y rest IH]; cbn; intros l'; [discriminate|].
  destruct (eqb y x).
  - intros [= ->]. by apply sublist_cons.
  - destruct (list_remove eqb x rest) as [r|]; [|discriminate]. cbn.
    intros [= <-]. by apply sublist_skip, IH.
Qed.

Lemma write_list_write_list l ns1 ns2 w :
  write_list l ns2 (write_list l ns1 w) = write_list l ns2 w.
Proof. unfold write_list, with_lists. cbn. by rewrite insert_insert_eq. Qed.

(** [remove_nodes] writes nothing but the list object, and only takes
    nodes out of it. *)
Lemma remove_nodes_loop_writes fuel l i w :
  exists w', remove_nodes_loop fuel l i w = Return tt w'
    /\ (w' = w \/ exists ns, w' = write_list l ns w /\ ns `sublist_of` list_at l w).
Proof.
  revert i w. induction fuel as [|fuel IH]; intros i w.
  - cbn. eauto.
  - rewrite remove_nodes_loop_S. destruct (list_at l w !! i) as [node|] eqn:Ei; [|eauto].
    destruct (negb (is_connected node)); [|apply IH].
    destruct (list_remove_lookup _ _ _ Ei) as [nodes' E]. rewrite E.
    apply list_remove_sublist in E.
    destruct (IH (S i) (write_list l nodes' w)) as (w' & -> & [->|(ns & -> & Hs)]).
    + eauto 6.
    + eexists. split; [done|]. right. exists ns.
      rewrite write_list_write_list. split; [done|].
      rewrite list_at_write_list in Hs. by etrans.
Qed.

Lemma remove_nodes_writes self w :
  exists w', remove_nodes self w = Return tt w'
    /\ (w' = w
        \/ exists ns, w' = write_list (_discovered_nodes (manager_at self w)) ns w
                      /\ ns `sublist_of` nodes_of self w).
Proof. unfold remove_nodes. mrun. apply remove_nodes_loop_writes. Qed.

Lemma add_listener_writes self listener w :
  exists w', add_listener self listener w = Return tt w'
    /\ (w' = w \/ exists ls, w' = update_manager self (set_listeners ls) w).
Proof.
  unfold add_listener. destruct listener as [l|]; [|eauto]. mrun.
  destruct (negb _); eauto 6.
Qed.

Lemma remove_listener_writes self listener w :
  exists w', remove_listener self listener w = Return tt w'
    /\ (w' = w \/ exists ls, w' = update_manager self (set_listeners ls) w).
Proof.
  unfold remove_listener. destruct listener as [l|]; [|eauto]. mrun.
  destruct (listener_in l _) eqn:E; [|eauto].
  apply listener_in_spec, list_remove_elem_of in E. destruct E as (ls' & -> & _).
  eauto 6.
Qed.

(** ** The scanner leaves the managers' attributes alone *)







(** ** The delegate of the scanner *)











(** ** A scan *)








(** ** Instances of the further properties *)

Lemma remove_nodes_leaves_witness :
  exists w', remove_nodes example_manager two_idle_nodes_world = Return tt w'
    /\ nodes_of example_manager w' = [node_B].
Proof.
  destruct (remove_nodes_leaves example_manager two_idle_nodes_world) as (w' & E & Hk & _).
  - apply (bool_decide_unpack _). vm_compute. exact I.
  - exists w'. split; [exact E|]. rewrite Hk. reflexivity.
Defined.



(** ** Starting, stopping and resetting a discovery *)








(** ** The singleton over the calls *)



Lemma same_INSTANCE_eq w w' : _INSTANCE w' = _INSTANCE w -> same_INSTANCE w w'.
Proof. intros E m. by rewrite E. Qed.




(** ** Distinct tags over the calls *)

Lemma tags_unique_write_list self l ns w :
  tags_unique self w ->
  (NoDup (get_tag <$> list_at l w) -> NoDup (get_tag <$> ns)) ->
  tags_unique self (write_list l ns w).
Proof.
  unfold tags_unique, nodes_of. rewrite manager_at_write_list. intros Hu Hns.
  destruct (decide (l = _discovered_nodes (manager_at self w))) as [->|Hne].
  - rewrite list_at_write_list. auto.
  - by rewrite list_at_write_list_ne.
Qed.

Lemma tags_unique_update_manager self s f w :
  (forall m, _discovered_nodes (f m) = _discovered_nodes m) ->
  tags_unique self w -> tags_unique self (update_manager s f w).
Proof.
  unfold tags_unique, nodes_of. intros Hf Hu.
  destruct (decide (s = self)) as [->|Hne].
  - by rewrite manager_at_update, Hf.
  - by rewrite manager_at_update_ne.
Qed.

Lemma tags_unique_new_manager self w :
  tags_unique self w ->
  tags_unique self
    (update_manager (S (next_ref w))
       (fun _ => mkManager None false (next_ref w) None [])
       (with_next_ref (S (S (next_ref w)))
          (write_list (next_ref w) [] (with_next_ref (S (next_ref w)) w)))).
Proof.
  intros Hu. unfold tags_unique, nodes_of.
  destruct (decide (S (next_ref w) = self)) as [<-|Hne].
  - rewrite manager_at_update. cbn [_discovered_nodes].
    unfold list_at. cbn. rewrite lookup_total_insert_eq. constructor.
  - rewrite manager_at_update_ne by done.
    apply (tags_unique_write_list self (next_ref w) [] w Hu). intros _. constructor.
Qed.

Lemma tags_stay_unique_refl w : tags_stay_unique w w.
Proof. by intros ?. Qed.

Lemma tags_stay_unique_trans w1 w2 w3 :
  tags_stay_unique w1 w2 -> tags_stay_unique w2 w3 -> tags_stay_unique w1 w3.
Proof. intros H12 H23 self H. by apply H23, H12. Qed.

Lemma tags_stay_unique_execs cs w : tags_stay_unique w (execs cs w).
Proof.
  apply keeps_execs.
  - apply tags_stay_unique_refl.
  - apply tags_stay_unique_trans.
  - intros w0 self Hu. rewrite instance_cases. destruct (_INSTANCE w0); [done|].
    by apply tags_unique_new_manager.
  - intros e w0 self Hu. rewrite Node__init__cases. by destruct (adv_name e).
  - intros s n w0 self Hu. rewrite add_node_cases.
    destruct (tag_present _ _) eqn:Et; [done|]. cbn [world_of].
    apply (tags_unique_write_list self _ _ w0 Hu). fold (nodes_of s w0). intros Hs.
    rewrite fmap_app. apply NoDup_app. split; [done|]. split; [|apply NoDup_singleton].
    intros t Ht ->%list_elem_of_singleton. apply tag_present_spec in Ht. congruence.
  - intros s status w0 self Hu. rewrite _notify_discovery_change_eq.
    by apply (tags_unique_update_manager self s).
  - intros s x w0 self Hu. by apply tags_unique_update_manager.
  - intros s x w0 self Hu. by apply tags_unique_update_manager.
  - intros s w0 self Hu.
    destruct (remove_nodes_writes s w0) as (w' & -> & [->|(ns & -> & Hs)]); [done|].
    apply tags_unique_write_list; [done|]. fold (nodes_of s w0).
    intros Hnd. eapply sublist_NoDup; [exact Hnd|]. by apply fmap_sublist.
  - intros w0 self Hu. rewrite Manager__init__cases. destruct (_INSTANCE w0); [done|].
    by apply tags_unique_new_manager.
  - intros s l w0 self Hu.
    destruct (add_listener_writes s l w0) as (w' & -> & [->|(ls & ->)]); [done|].
    by apply tags_unique_update_manager.
  - intros s l w0 self Hu.
    destruct (remove_listener_writes s l w0) as (w' & -> & [->|(ls & ->)]); [done|].
    by apply tags_unique_update_manager.
  - intros device_id w0 self Hu. by rewrite get_node_features_spec.
Qed.

(** X13. No two nodes of a manager's list have the same tag, whatever is
    called: a list with distinct tags has distinct tags after any
    sequence of calls of the interface and of the scanner's delegate, on
    this manager or on another one, and so has the list of a manager
    built by the constructor. *)
Theorem tags_unique_invariant cs :
  (forall self w, tags_unique self w -> tags_unique self (execs cs w))
  /\ (forall w self w0,
        Manager__init__ w = Return self w0 -> tags_unique self (execs cs w0)).
Proof.
  split.
  - intros self w. apply tags_stay_unique_execs.
  - intros w self w0 H. apply tags_stay_unique_execs.
    unfold tags_unique. rewrite (Manager__init__nodes _ _ _ H). constructor.
Qed.

Lemma tags_unique_invariant_witness :
  tags_unique example_manager
    (execs (call_remove_nodes example_manager :: example_session) two_idle_nodes_world).
Proof.
  apply (proj1 (tags_unique_invariant _)).
  unfold tags_unique. apply (bool_decide_unpack _). vm_compute. exact I.
Defined.

(** ** The features decoder over the calls *)

Lemma same_features_refl w : same_features w w.
Proof. by intros ?. Qed.

Lemma same_features_trans w1 w2 w3 :
  same_features w1 w2 -> same_features w2 w3 -> same_features w1 w3.
Proof.
  intros H12 H23 H1. destruct (H12 H1) as (H2 & Hle12 & E12).
  destruct (H23 H2) as (H3 & Hle23 & E23). split; [done|]. split; [lia|].
  intros device_id. destruct (E12 device_id) as [<- <-]. apply E23.
Qed.

(** A step that writes neither the registrations nor an allocated
    dictionary object. *)
Lemma same_features_frame w w' :
  _features_decoder_dic w' = _features_decoder_dic w ->
  DEFAULT_MASK_TO_FEATURE_DIC w' = DEFAULT_MASK_TO_FEATURE_DIC w ->
  (forall l, l < next_ref w -> dict_at l w' = dict_at l w) ->
  next_ref w <= next_ref w' ->
  same_features w w'.
Proof.
  intros Hr Hd Hl Hn Hwf. split; [|split; [done|]].
  - destruct Hwf as (Hreg & Hdef & Hinj). unfold wf_features. rewrite Hr, Hd.
    split; [|split; [lia|done]].
    intros id d E. destruct (Hreg _ _ E). split; [lia|done].
  - intros device_id. by destruct (features_of_frame device_id w w' Hwf Hr Hd Hl) as (? & _ & ?).
Qed.

Lemma same_features_execs cs w : same_features w (execs cs w).
Proof.
  apply keeps_execs.
  - apply same_features_refl.
  - apply same_features_trans.
  - intros w0. rewrite instance_cases.
    destruct (_INSTANCE w0); [apply same_features_refl|].
    apply same_features_frame; cbn; (done || lia).
  - intros e w0. rewrite Node__init__cases.
    destruct (adv_name e); [|apply same_features_refl].
    apply same_features_frame; cbn; (done || lia).
  - intros s n w0. rewrite add_node_cases.
    destruct (tag_present _ _); [apply same_features_refl|].
    by apply same_features_frame.
  - intros s status w0. rewrite _notify_discovery_change_eq. by apply same_features_frame.
  - intros s x w0. by apply same_features_frame.
  - intros s x w0. by apply same_features_frame.
  - intros s w0.
    destruct (remove_nodes_writes s w0) as (w' & -> & [->|(ns & -> & _)]);
      [apply same_features_refl|by apply same_features_frame].
  - intros w0. rewrite Manager__init__cases.
    destruct (_INSTANCE w0); [apply same_features_refl|].
    apply same_features_frame; cbn; (done || lia).
  - intros s l w0.
    destruct (add_listener_writes s l w0) as (w' & -> & [->|(ls & ->)]);
      [apply same_features_refl|by apply same_features_frame].
  - intros s l w0.
    destruct (remove_listener_writes s l w0) as (w' & -> & [->|(ls & ->)]);
      [apply same_features_refl|by apply same_features_frame].
  - intros device_id w0. rewrite get_node_features_spec.
    apply same_features_frame; cbn; [done|done| |lia].
    intros l Hl. unfold dict_at. cbn. apply lookup_total_insert_ne. lia.
Qed.

(** X14. No sequence of calls of the interface changes what is registered
    in the features decoder: in a well-formed store the dictionary of
    every device identifier, and what [get_node_features] copies for it,
    are after the calls what they were before. From the store at import
    time no device identifier is ever registered, and
    [get_node_features] returns a copy of the default dictionary for
    every identifier, whatever was called before. *)
Theorem features_never_registered cs :
  (forall w device_id,
      wf_features w ->
      stored_features device_id (execs cs w) = stored_features device_id w
      /\ features_of device_id (execs cs w) = features_of device_id w)
  /\ (forall (default_dic : Dict) device_id,
        stored_features device_id (execs cs (initial_world default_dic)) = None
        /\ exists r w',
            get_node_features device_id (execs cs (initial_world default_dic))
              = Return r w'
            /\ dict_at r w' = default_dic).
Proof.
  split.
  - intros w device_id Hwf. by destruct (same_features_execs cs w Hwf) as (_ & _ & H).
  - intros default_dic device_id.
    destruct (same_features_execs cs _ (initial_world_wf_features default_dic))
      as (_ & _ & H).
    destruct (H device_id) as [Hs Hf]. split; [by rewrite Hs|].
    rewrite get_node_features_spec. eexists _, _. split; [reflexivity|].
    rewrite dict_at_write_dict, Hf. unfold features_of, stored_features, default_features.
    cbn. unfold dict_at. cbn. rewrite lookup_empty. cbn. apply lookup_total_insert_eq.
Qed.

Lemma features_never_registered_witness :
  features_of 128
    (execs [call_add_features_to_node 128 {[ 2%Z := FeatureHumidity ]};
            call_get_node_features 128] registered_world)
  = {[ 1%Z := FeatureTemperature ]}.
Proof.
  destruct (features_never_registered
              [call_add_features_to_node 128 {[ 2%Z := FeatureHumidity ]};
               call_get_node_features 128]) as [H _].
  destruct (H registered_world 128%Z registered_world_wf) as [_ ->].
  apply (bool_decide_unpack _). vm_compute. exact I.
Defined.

(** ** The order of the listeners *)






(** ** The example: selecting the devices *)

Lemma list_index_nonneg {A} (l : list A) (i : Z) (n : nat) :
  i = Z.of_nat n -> list_index l i = l !! n.
Proof.
  intros ->. unfold list_index.
  destruct (Z.leb_spec 0 (Z.of_nat n)); [|lia]. by rewrite Nat2Z.id.
Qed.

(** X16. In the example, a choice that the prompt accepts and that is not
    0 selects six devices, from the one chosen to the fifth after it. The
    selection goes through exactly when the list holds five more devices
    from the chosen position on, and raises [IndexError] otherwise: with
    fewer than six devices discovered, every choice but 0 fails. *)
Theorem select_devices_bounds discovered_devices choice :
  choice_accepted discovered_devices choice = true ->
  choice <> 0%Z ->
  (if bool_decide (choice + 5 <= Z.of_nat (length discovered_devices))%Z then
     exists devices,
       select_devices discovered_devices choice = Some devices
       /\ length devices = 6
       /\ forall k, k < 6 ->
            devices !! k = discovered_devices !! (Z.to_nat choice - 1 + k)
   else select_devices discovered_devices choice = None)
  /\ (length discovered_devices < 6 -> select_devices discovered_devices choice = None).
Proof.
  unfold choice_accepted. intros [Hge Hle]%andb_true_iff Hne.
  apply Z.geb_le in Hge. apply Z.leb_le in Hle.
  set (n := Z.to_nat choice - 1).
  assert (choice = Z.of_nat (S n)) as Hc by lia.
  unfold select_devices.
  rewrite (list_index_nonneg _ (choice - 1) n) by lia.
  rewrite (list_index_nonneg _ choice (n + 1)) by lia.
  rewrite (list_index_nonneg _ (choice + 1) (n + 2)) by lia.
  rewrite (list_index_nonneg _ (choice + 2) (n + 3)) by lia.
  rewrite (list_index_nonneg _ (choice + 3) (n + 4)) by lia.
  rewrite (list_index_nonneg _ (choice + 4) (n + 5)) by lia.
  assert (length discovered_devices < n + 6 ->
          discovered_devices !! n ≫= (fun device =>
          discovered_devices !! (n + 1) ≫= (fun device2 =>
          discovered_devices !! (n + 2) ≫= (fun device3 =>
          discovered_devices !! (n + 3) ≫= (fun device4 =>
          discovered_devices !! (n + 4) ≫= (fun device5 =>
          discovered_devices !! (n + 5) ≫= (fun device6 =>
          Some [device; device2; device3; device4; device5; device6])))))) = None)
    as Hshort.
  { intros Hlt.
    rewrite (proj2 (lookup_ge_None discovered_devices (n + 5))) by lia. cbn.
    by repeat (destruct (discovered_devices !! _); cbn; try done). }
  split; [|intros Hlt; apply Hshort; lia].
  case_bool_decide as Hlen; [|apply Hshort; lia].
  destruct (lookup_lt_is_Some_2 discovered_devices n) as [d1 E1]; [lia|].
  destruct (lookup_lt_is_Some_2 discovered_devices (n + 1)) as [d2 E2]; [lia|].
  destruct (lookup_lt_is_Some_2 discovered_devices (n + 2)) as [d3 E3]; [lia|].
  destruct (lookup_lt_is_Some_2 discovered_devices (n + 3)) as [d4 E4]; [lia|].
  destruct (lookup_lt_is_Some_2 discovered_devices (n + 4)) as [d5 E5]; [lia|].
  destruct (lookup_lt_is_Some_2 discovered_devices (n + 5)) as [d6 E6]; [lia|].
  rewrite E1, E2, E3, E4, E5, E6. cbn.
  eexists. split; [reflexivity|]. split; [reflexivity|].
  intros k Hk. destruct k as [|[|[|[|[|[|k]]]]]]; cbn; [| | | | | |lia].
  - by rewrite Nat.add_0_r.
  - done.
  - done.
  - done.
  - done.
  - done.
Qed.

Lemma select_devices_bounds_witness :
  select_devices [node_A; node_B; node_C] 1 = None.
Proof.
  apply (select_devices_bounds [node_A; node_B; node_C] 1).
  - reflexivity.
  - discriminate.
  - cbn. lia.
Defined.

(** ** The scanning thread *)




